(** * corsairmi: the HID register protocol of Corsair RMi/HXi power supplies

    A shallow embedding of [corsairmi.c]: the 16-bit linear-float codec
    ([mkv]), the report framer ([send_recv_cmd]), the register readers
    ([read_reg], [read_reg16], [read_reg32], [print_std_reg]), the device
    gate ([try_open_device]) and the telemetry session of [main].

    Conventions.
    - [uint8_t] values are [Byte.byte]; buffers are [list byte].
    - [int], [int16_t], [uint16_t], [uint32_t], [ssize_t] and [size_t] values
      are [Z]; every conversion that can wrap is written out.
    - The value of a [double] is an exact rational ([Q]); the only doubles the
      program builds are products of an 11-bit integer and a power of two
      between [2^-16] and [2^15], all of which binary64 represents exactly
      (lemma [mkv_binary64_exact]).
    - The hidraw file descriptor is a state machine supplied by the
      environment; the process is a state-and-exit monad over it that records
      every system call and every line printed. *)

From Stdlib Require Import ZArith QArith Qabs Lia List Bool Ascii String.
From Stdlib Require Import Strings.Byte DecimalString.
From stdpp Require Import base list.

Local Open Scope Z_scope.

(** ** Machine integers *)

Module CInt.

(** Conversion to an unsigned type of [w] bits. *)
Definition to_unsigned (w : Z) (x : Z) : Z := x mod 2 ^ w.

(** Conversion to a signed two's complement type of [w] bits. *)
Definition to_signed (w : Z) (x : Z) : Z :=
  let u := x mod 2 ^ w in
  if u <? 2 ^ (w - 1) then u else u - 2 ^ w.

Definition to_int16 : Z -> Z := to_signed 16.
Definition to_int : Z -> Z := to_signed 32.
Definition to_uint16 : Z -> Z := to_unsigned 16.

(** [x << n] on [int]: the bits that leave the 32-bit word are lost, and
    bit 31 of what is left is the sign (the behaviour of the compilers the
    program is built with; the C standard leaves a shift into the sign bit
    undefined). *)
Definition int_shl (x n : Z) : Z := to_int (Z.shiftl x n).

(** [x >> n] on [int]: arithmetic shift, the sign bit is replicated. *)
Definition int_shr (x n : Z) : Z := Z.shiftr x n.

Definition is_uint16 (x : Z) : Prop := 0 <= x < 65536.

End CInt.

(** ** Numeric codec *)

Module Codec.
Import CInt.

(** [int p = (int)(int16_t)v16 >> 11;] *)
Definition mkv_p (v16 : Z) : Z := int_shr (to_int (to_int16 v16)) 11.

(** [int v = ((int)v16 << 21) >> 21;] *)
Definition mkv_v (v16 : Z) : Z := int_shr (int_shl (to_int v16) 21) 21.

(** [pow(2.0, p)] for an integer [p]. *)
Definition pow2 (p : Z) : Q := Qpower 2 p.

(** [return (double)v * pow(2.0, p);] *)
Definition mkv (v16 : Z) : Q := (inject_Z (mkv_v v16) * pow2 (mkv_p v16))%Q.

(** The decoding as the documentation words it: a field of [w] bits taken
    at bit [lo], then sign-extended from its width. *)
Definition field (lo w raw : Z) : Z := Z.land (Z.shiftr raw lo) (Z.ones w).

Definition sign_extend (w x : Z) : Z :=
  if Z.testbit x (w - 1) then x - 2 ^ w else x.

Definition spec_exponent (raw : Z) : Z := sign_extend 5 (field 11 5 raw).
Definition spec_mantissa (raw : Z) : Z := sign_extend 11 (field 0 11 raw).

(** [2^e] as a rational, from the power of integers: it shares nothing
    with [pow2], the model of the call of [pow]. *)
Definition scale2 (e : Z) : Q :=
  if 0 <=? e then inject_Z (2 ^ e) else (/ inject_Z (2 ^ (- e)))%Q.

Definition spec_decode (raw : Z) : Q :=
  (inject_Z (spec_mantissa raw) * scale2 (spec_exponent raw))%Q.

(** A rational that binary64 holds without rounding: an integer
    significand below [2^53] scaled by a power of two in the normal or
    subnormal exponent range. *)
Definition binary64_exact (x : Q) : Prop :=
  exists m e : Z,
    Z.abs m < 2 ^ 53 /\ -1074 <= e <= 971 /\ (x == inject_Z m * scale2 e)%Q.

End Codec.

(** ** The environment: the host, its device nodes and the hidraw driver *)

Inductive endianness := LittleEndian | BigEndian.

(** What one [read(fd, buf_r, 64)] finds: an error (the call returns -1) or
    the bytes the device has queued, of which at most 64 are taken. *)
Inductive read_reply :=
| ReadFails
| ReadGives (data : list byte).

(** What [ioctl(fd, HIDIOCGRAWINFO, &info)] finds: an error, or the bus type
    and the 16-bit USB vendor and product identifiers of the device. *)
Inductive ioctl_reply :=
| IoctlFails (errno : Z)
| IoctlGives (bus vid pid : Z).

(** The device behind an open descriptor, as a state machine on [S]:
    [hid_write s buf] is the value [write] returns for the report [buf]. *)
Record hidraw (S : Type) := {
  hid_write : S -> list byte -> Z * S;
  hid_read : S -> read_reply * S;
  hid_rawinfo : S -> ioctl_reply
}.
Arguments hid_write {S}.
Arguments hid_read {S}.
Arguments hid_rawinfo {S}.

(** [struct hidraw_devinfo] as [linux/hidraw.h] declares it (a system
    header, not a file of the repository). The kernel declares
    [vendor] and [product] as signed 16-bit fields, so the 16-bit USB
    identifiers the device reports are stored after conversion to
    [int16_t]. *)
Record hidraw_devinfo := { bustype : Z; vendor : Z; product : Z }.

Definition devinfo_of_usb (bus vid pid : Z) : hidraw_devinfo :=
  {| bustype := bus; vendor := CInt.to_int16 vid; product := CInt.to_int16 pid |}.

(** [memset(&info, 0, sizeof(info))] *)
Definition devinfo_zero : hidraw_devinfo :=
  {| bustype := 0; vendor := 0; product := 0 |}.

Inductive open_reply (S : Type) :=
| OpenFails (errno : Z)
| OpenGives (s0 : S).
Arguments OpenFails {S}.
Arguments OpenGives {S}.

Record host (S : Type) := {
  byte_order : endianness;
  nodes : string -> open_reply S;
  driver : hidraw S
}.
Arguments byte_order {S}.
Arguments nodes {S}.
Arguments driver {S}.

(** ** The process *)

(** The objects of the program that are passed by address: [name] and [v32]
    of [main], [val] of [print_std_reg]. *)
Inductive var := Name | V32 | Val.

Definition sizeof (x : var) : nat :=
  match x with Name => 63 | V32 => 4 | Val => 2 end%nat.

Definition var_eqb (x y : var) : bool :=
  match x, y with
  | Name, Name | V32, V32 | Val, Val => true
  | _, _ => false
  end.

Inductive stdout_line :=
| OutText (label : string) (text : list byte)
| OutSeconds (label : string) (v32 days hours : Z)
| OutReading (fmt : string) (arg : option Z) (value : Q)
| OutDump (bytes : list byte).

Inductive stderr_line :=
| ErrUsage (argv0 : string)
| ErrOpen (name : string)
| ErrIoctl
| ErrUnexpectedDevice (vendor product : Z)
| ErrNoDevices
| ErrNoPermission
| ErrWrite (ret size : Z)
| ErrRead (ret size : Z)
| ErrUnexpectedResponse (r0 r1 b0 b1 b2 : byte).

Inductive event :=
| EvOpen (name : string) (fd : Z)
| EvIoctl (ret : Z) (info : hidraw_devinfo)
| EvClose
| EvWrite (buf : list byte) (ret : Z)
| EvRead (size ret : Z)
| EvStdout (line : stdout_line)
| EvStderr (line : stderr_line).

Record proc (S : Type) := {
  fd_state : option S;
  errno : Z;
  mem : var -> list byte;
  trace : list event
}.
Arguments fd_state {S}.
Arguments errno {S}.
Arguments mem {S}.
Arguments trace {S}.

(** How a computation ends: it returns, the process exits ([exit(1)]), or it
    leaves the bounds of an object. *)
Inductive result (A : Type) :=
| Ret (a : A)
| Exit (status : Z)
| Fault.
Arguments Ret {A}.
Arguments Exit {A}.
Arguments Fault {A}.

Definition M (S A : Type) : Type := proc S -> result A * proc S.

#[export] Instance M_ret {S} : MRet (M S) := fun A a p => (Ret a, p).

#[export] Instance M_bind {S} : MBind (M S) := fun A B f m p =>
  match m p with
  | (Ret a, p') => f a p'
  | (Exit c, p') => (Exit c, p')
  | (Fault, p') => (Fault, p')
  end.

(** ** System calls, library calls and memory *)

Section Program.
Context {S : Type} (H : host S).

Definition log (e : event) : M S unit := fun p =>
  (Ret tt, {| fd_state := fd_state p; errno := errno p; mem := mem p;
              trace := trace p ++ [e] |}).

(** [printf], [fprintf(stderr, ...)] and [perror]: the line is recorded.
    [errno] is kept as it was, as for a library whose output calls succeed
    without touching it; a library may set it on the way. *)
Definition stdout (l : stdout_line) : M S unit := log (EvStdout l).
Definition stderr (l : stderr_line) : M S unit := log (EvStderr l).

(** [exit(status)] *)
Definition exit {A} (status : Z) : M S A := fun p => (Exit status, p).

Definition fault {A} : M S A := fun p => (Fault, p).

Definition skip : M S unit := mret tt.

Definition load (x : var) : M S (list byte) := fun p => (Ret (mem p x), p).

Definition store (x : var) (bytes : list byte) : M S unit := fun p =>
  (Ret tt, {| fd_state := fd_state p; errno := errno p;
              mem := fun y => if var_eqb x y then bytes else mem p y;
              trace := trace p |}).

Definition get_errno : M S Z := fun p => (Ret (errno p), p).

(** [open(name, O_RDWR)]: descriptor 3 or -1 with [errno] set. Only one
    descriptor is ever open, so the [fd] argument of the other calls is
    left implicit. *)
Definition sys_open (name : string) : M S Z := fun p =>
  match nodes H name with
  | OpenFails e =>
      (Ret (-1),
       {| fd_state := None; errno := e; mem := mem p;
          trace := trace p ++ [EvOpen name (-1)] |})
  | OpenGives s0 =>
      (Ret 3,
       {| fd_state := Some s0; errno := errno p; mem := mem p;
          trace := trace p ++ [EvOpen name 3] |})
  end.

(** [ioctl(fd, HIDIOCGRAWINFO, &info)] on an [info] that was zeroed. *)
Definition sys_ioctl_rawinfo : M S (Z * hidraw_devinfo) :=
  fun p =>
    match from_option (hid_rawinfo (driver H)) (IoctlFails 9) (fd_state p) with
    | IoctlFails e =>
        (Ret (-1, devinfo_zero),
         {| fd_state := fd_state p; errno := e; mem := mem p;
            trace := trace p ++ [EvIoctl (-1) devinfo_zero] |})
    | IoctlGives bus vid pid =>
        (Ret (0, devinfo_of_usb bus vid pid),
         {| fd_state := fd_state p; errno := errno p; mem := mem p;
            trace := trace p ++ [EvIoctl 0 (devinfo_of_usb bus vid pid)] |})
    end.

Definition sys_close : M S unit := fun p =>
  (Ret tt, {| fd_state := None; errno := errno p; mem := mem p;
              trace := trace p ++ [EvClose] |}).

(** [write(fd, buf, sizeof(buf))] *)
Definition sys_write (buf : list byte) : M S Z := fun p =>
  match fd_state p with
  | None =>
      (Ret (-1), {| fd_state := None; errno := 9; mem := mem p;
                    trace := trace p ++ [EvWrite buf (-1)] |})
  | Some s =>
      let '(ret, s') := hid_write (driver H) s buf in
      (Ret ret, {| fd_state := Some s'; errno := errno p; mem := mem p;
                   trace := trace p ++ [EvWrite buf ret] |})
  end.

(** [read(fd, buf_r, size)] into an indeterminate [buf_r]: the value
    returned and the bytes of [buf_r] that the call has set. *)
Definition read_result (size : nat) (reply : read_reply) : Z * list byte :=
  match reply with
  | ReadFails => (-1, [])
  | ReadGives data => (Z.of_nat (length (take size data)), take size data)
  end.

Definition sys_read (size : nat) : M S (Z * list byte) := fun p =>
  match fd_state p with
  | None =>
      (Ret (-1, []), {| fd_state := None; errno := 9; mem := mem p;
                        trace := trace p ++ [EvRead (Z.of_nat size) (-1)] |})
  | Some s =>
      let '(reply, s') := hid_read (driver H) s in
      (Ret (read_result size reply),
       {| fd_state := Some s'; errno := errno p; mem := mem p;
          trace := trace p ++
                   [EvRead (Z.of_nat size) (fst (read_result size reply))] |})
  end.

(** [memcpy(dst, src, n)] into the object [dst]. *)
Definition memcpy (dst : var) (src : list byte) (n : nat) : M S unit :=
  old ← load dst;
  if (n <=? length old)%nat && (n <=? length src)%nat
  then store dst (take n src ++ drop n old)
  else fault.

(** The characters of the C string that starts an object: the bytes before
    its first zero byte, or nothing when the object holds no zero byte
    (a consumer would run past its end). *)
Fixpoint c_string (bytes : list byte) : option (list byte) :=
  match bytes with
  | [] => None
  | b :: rest =>
      if Byte.eqb b x00 then Some []
      else match c_string rest with
           | Some s => Some (b :: s)
           | None => None
           end
  end.

(** [printf("label '%s'\n", x)] *)
Definition print_text (label : string) (x : var) : M S unit :=
  bytes ← load x;
  match c_string bytes with
  | Some s => stdout (OutText label s)
  | None => fault
  end.

(** [dump(buf, size)]: the bytes shown; the layout of the lines (hex and
    ASCII columns, 16 bytes a line) is not modelled. *)
Definition dump (buf : list byte) (size : nat) : M S unit :=
  stdout (OutDump (take size buf)).

(** The value of a [uintN_t] object with the given bytes. *)
Fixpoint le_value (bytes : list byte) : Z :=
  match bytes with
  | [] => 0
  | b :: rest => Z.of_N (Byte.to_N b) + 256 * le_value rest
  end.

Definition object_value (bytes : list byte) : Z :=
  match byte_order H with
  | LittleEndian => le_value bytes
  | BigEndian => le_value (rev bytes)
  end.

End Program.

(** ** The program *)

(** [static const uint16_t products[]] *)
Definition products : list Z :=
  [ 0x1c0a (* RM650i *);
    0x1c0b (* RM750i *);
    0x1c0c (* RM850i *);
    0x1c0d (* RM1000i *);
    0x1c04 (* HX650i *);
    0x1c05 (* HX750i *);
    0x1c06 (* HX850i *);
    0x1c07 (* HX1000i *);
    0x1c08 (* HX1200i *);
    0x1c1e (* HX1000i (2nd gen) *) ].

Definition EACCES : Z := 13.

Section Corsairmi.
Context {S : Type} (H : host S).

(** [buf_w] when it is handed to [write]: zeroed, then bytes 1, 2, 3 set. *)
Definition buf_w (b0 b1 b2 : byte) : list byte :=
  <[3%nat := b2]> (<[2%nat := b1]> (<[1%nat := b0]> (replicate 65 x00))).

Definition send_recv_cmd (b0 b1 b2 : byte) (buf : option var) (buf_size : Z)
  : M S unit :=
  ret ← sys_write H (buf_w b0 b1 b2);
  if negb (ret =? 65) then
    stderr (ErrWrite ret 65);;
    exit 1
  else
    '(ret, buf_r) ← sys_read H 64;
    if negb (ret =? 64) then
      stderr (ErrRead ret 64);;
      (if 0 <? ret then dump buf_r (Z.to_nat ret) else skip);;
      exit 1
    else
      let r0 := nth 0 buf_r x00 in
      let r1 := nth 1 buf_r x00 in
      if negb (Byte.eqb r0 b0) || negb (Byte.eqb r1 b1) then
        stderr (ErrUnexpectedResponse r0 r1 b0 b1 b2);;
        dump buf_r 64;;
        exit 1
      else
        match buf with
        | Some dst =>
            if 0 <? buf_size then
              let buf_size := if 64 - 2 <? buf_size then 64 - 2 else buf_size in
              memcpy dst (drop 2 buf_r) (Z.to_nat buf_size)
            else skip
        | None => skip
        end.

Definition read_reg (reg : byte) (buf : option var) (buf_size : Z) : M S unit :=
  send_recv_cmd x03 reg x00 buf buf_size.

(** The size of the object [v] points to is 2; the bytes land in it as
    they arrive. *)
Definition read_reg16 (reg : byte) (v : var) : M S unit :=
  send_recv_cmd x03 reg x00 (Some v) 2.

(** The size of the object [v] points to is 4. *)
Definition read_reg32 (reg : byte) (v : var) : M S unit :=
  send_recv_cmd x03 reg x00 (Some v) 4.

(** [print_std_reg(fd, reg, fmt, ...)]: the label is kept as the format
    and its argument; the padding to 16 columns and the ["%5.1f"]
    rendering of the value are not modelled. *)
Definition print_std_reg (reg : byte) (fmt : string) (arg : option Z) : M S unit :=
  read_reg16 reg Val;;
  val ← load Val;
  stdout (OutReading fmt arg (Codec.mkv (object_value H val))).

Definition try_open_device (name : string) (report_errors : bool) : M S Z :=
  fd ← sys_open H name;
  if fd =? -1 then
    (if report_errors then stderr (ErrOpen name) else skip);;
    mret (-1)
  else
    '(ret, info) ← sys_ioctl_rawinfo H;
    found ← (if negb (ret =? 0) then
               stderr ErrIoctl;;
               mret false
             else if negb (vendor info =? 0x1b1c) then mret false
             else mret (existsb (fun p => product info =? p) products));
    if negb found then
      (if report_errors
       then stderr (ErrUnexpectedDevice (vendor info) (product info))
       else skip);;
      sys_close;;
      mret (-1)
    else mret fd.

(** [snprintf(dst, size, "%s", s)] for a [size] above 0. *)
Definition snprintf (dst : var) (size : nat) (s : string) : M S unit :=
  old ← load dst;
  let out := take (size - 1) (list_byte_of_string s) ++ [x00] in
  if (length out <=? length old)%nat
  then store dst (out ++ drop (length out) old)
  else fault.

Definition hidraw_path (i : nat) : string :=
  String.append "/dev/hidraw" (NilZero.string_of_uint (Nat.to_uint i)).

(** The loop [for (i = 0; i < 16; i++)] of [main], over the values of [i]
    that are left; it yields [fd] and [had_eacces]. The path handed to
    [try_open_device] is the string [snprintf] has just stored in [name]
    (at most 13 characters, so nothing is cut). *)
Fixpoint scan (left : list nat) (had_eacces : bool) : M S (Z * bool) :=
  match left with
  | [] => mret (-1, had_eacces)
  | i :: rest =>
      snprintf Name (sizeof Name) (hidraw_path i);;
      fd ← try_open_device (hidraw_path i) false;
      if negb (fd =? -1) then mret (fd, had_eacces)
      else
        e ← get_errno;
        scan rest (if e =? EACCES then true else had_eacces)
  end.

Definition first_is_dash (s : string) : bool :=
  match s with
  | String c _ => Ascii.eqb c "-"%char
  | EmptyString => false
  end.

(** The first part of [main]: the descriptor, or -1; [None] stands for
    the early [return 1] after the usage text. *)
Definition main_open (argv : list string) : M S (option Z) :=
  let argc := Z.of_nat (length argv) in
  if 1 <? argc then
    if first_is_dash (nth 1 argv EmptyString) || negb (argc =? 2) then
      stderr (ErrUsage (nth 0 argv EmptyString));;
      mret None
    else
      fd ← try_open_device (nth 1 argv EmptyString) true;
      mret (Some fd)
  else
    '(fd, had_eacces) ← scan (seq 0 16) false;
    (if fd =? -1 then
       stderr ErrNoDevices;;
       (if had_eacces : bool then stderr ErrNoPermission else skip)
     else skip);;
    mret (Some fd).

(** [printf("label %u (%dd. %dh)\n", v32, v32 / (24*60*60), v32 / (60*60) % 24)] *)
Definition print_seconds (label : string) (x : var) : M S unit :=
  bytes ← load x;
  let v32 := object_value H bytes in
  stdout (OutSeconds label v32 (v32 / (24 * 60 * 60)) (v32 / (60 * 60) mod 24)).

(** The body of [for (osel = 0; osel < 3; osel++)]. *)
Definition rail (osel : byte) : M S unit :=
  let n := Z.of_N (Byte.to_N osel) in
  send_recv_cmd x02 x00 osel None 0;;
  print_std_reg x8b "output%u volts" (Some n);;
  print_std_reg x8c "output%u amps" (Some n);;
  print_std_reg x96 "output%u watts" (Some n).

Fixpoint for_each {A} (l : list A) (body : A -> M S unit) : M S unit :=
  match l with
  | [] => skip
  | a :: rest => body a;; for_each rest body
  end.

(** The second part of [main], from [name[sizeof(name) - 1] = 0] to the
    last [send_recv_cmd]. *)
Definition main_session : M S unit :=
  (old ← load Name; store Name (<[(sizeof Name - 1)%nat := x00]> old));;
  send_recv_cmd xfe x03 x00 (Some Name) (Z.of_nat (sizeof Name) - 1);;
  print_text "name:" Name;;
  read_reg x99 (Some Name) (Z.of_nat (sizeof Name) - 1);;
  print_text "vendor:" Name;;
  read_reg x9a (Some Name) (Z.of_nat (sizeof Name) - 1);;
  print_text "product:" Name;;
  read_reg32 xd1 V32;;
  print_seconds "powered:" V32;;
  read_reg32 xd2 V32;;
  print_seconds "uptime:" V32;;
  print_std_reg x8d "temp1" None;;
  print_std_reg x8e "temp2" None;;
  print_std_reg x90 "fan rpm" None;;
  print_std_reg x88 "supply volts" None;;
  print_std_reg xee "total watts" None;;
  for_each [x00; x01; x02] rail;;
  send_recv_cmd x02 x00 x00 None 0.

Definition main (argv : list string) : M S Z :=
  r ← main_open argv;
  match r with
  | None => mret 1
  | Some fd =>
      if fd =? -1 then mret 1
      else
        main_session;;
        sys_close;;
        mret 0
  end.

(** The process from its start: every object holds indeterminate bytes
    ([junk]) of its size, no descriptor is open, nothing has happened. *)
Definition start (junk : var -> list byte) : proc S :=
  {| fd_state := None; errno := 0;
     mem := fun x => resize (sizeof x) x00 (junk x);
     trace := [] |}.

Definition run (argv : list string) (junk : var -> list byte)
  : result Z * proc S :=
  main argv (start junk).

End Corsairmi.

(** ** Reading a trace *)

Definition command : Type := byte * byte * byte.

(** The command a 65-byte report carries: its bytes 1, 2 and 3. *)
Definition command_of (buf : list byte) : command :=
  (nth 1 buf x00, nth 2 buf x00, nth 3 buf x00).

Fixpoint commands (tr : list event) : list command :=
  match tr with
  | [] => []
  | EvWrite buf _ :: rest => command_of buf :: commands rest
  | _ :: rest => commands rest
  end.

(** A monitor reads a trace event by event and stops at the first event it
    does not allow. *)
Fixpoint monitor {St : Type} (step : St -> event -> option St) (st : St)
    (tr : list event) : option St :=
  match tr with
  | [] => Some st
  | e :: rest =>
      match step st e with
      | Some st' => monitor step st' rest
      | None => None
      end
  end.

Definition accepts {St : Type} (step : St -> event -> option St) (st : St)
    (tr : list event) : bool :=
  match monitor step st tr with Some _ => true | None => false end.

(** *** The device gate

    The allow-list as the documentation gives it, on the identifiers the
    device reports (the unsigned reading of the two 16-bit fields). *)
Definition allow_list : list Z :=
  [0x1c0a; 0x1c0b; 0x1c0c; 0x1c0d; 0x1c04; 0x1c05; 0x1c06; 0x1c07; 0x1c08; 0x1c1e].

Definition eligible (info : hidraw_devinfo) : bool :=
  (CInt.to_uint16 (vendor info) =? 0x1b1c)
  && existsb (Z.eqb (CInt.to_uint16 (product info))) allow_list.

Inductive gate := Closed | Unchecked | Accepted | Rejected.

(** Protocol traffic ([write], [read]) is allowed only on a descriptor whose
    device has passed the identity check. *)
Definition gate_step (g : gate) (e : event) : option gate :=
  match e with
  | EvOpen _ fd => Some (if fd =? -1 then Closed else Unchecked)
  | EvIoctl ret info =>
      Some (if (ret =? 0) && eligible info then Accepted else Rejected)
  | EvClose => Some Closed
  | EvWrite _ _ | EvRead _ _ =>
      match g with Accepted => Some Accepted | _ => None end
  | _ => Some g
  end.

(** *** Rail selection

    [selected] is the rail of the last rail-select command; [pending] is the
    rail that was selected when the last rail-scoped register was read and
    whose reading has not been printed yet. *)
Record rails := { selected : option Z; pending : option Z }.

Definition no_rail : rails := {| selected := None; pending := None |}.

Definition rail_scoped (reg : byte) : bool :=
  Byte.eqb reg x8b || Byte.eqb reg x8c || Byte.eqb reg x96.

(** A rail-scoped register is read only after a rail was selected, and a
    reading printed for rail [k] comes from a read made while rail [k] was
    the one selected last. *)
Definition rail_step (st : rails) (e : event) : option rails :=
  match e with
  | EvWrite buf _ =>
      let '(op, reg, arg) := command_of buf in
      if Byte.eqb op x02 && Byte.eqb reg x00 then
        Some {| selected := Some (Z.of_N (Byte.to_N arg)); pending := None |}
      else if Byte.eqb op x03 && rail_scoped reg then
        match selected st with
        | Some k => Some {| selected := Some k; pending := Some k |}
        | None => None
        end
      else Some st
  | EvStdout (OutReading _ (Some k) _) =>
      match pending st with
      | Some k' =>
          if k =? k' then Some {| selected := selected st; pending := None |}
          else None
      | None => None
      end
  | _ => Some st
  end.

(** *** Strings *)

Definition text_ok (e : event) : bool :=
  match e with
  | EvStdout (OutText _ s) => (length s <=? 62)%nat
  | _ => true
  end.

(** Events that [send_recv_cmd] adds after its [write]. *)
Definition after_write (e : event) : bool :=
  match e with
  | EvRead _ _ | EvStderr _ | EvStdout (OutDump _) => true
  | _ => false
  end.

(** ** Simulated devices

    Concrete environments on which the program can be run: the state of the
    simulated device is the last report it was sent. *)

Module Sim.

(** A device that answers every [write] with [wret] and every [read] with
    [reply] of the last report written. *)
Definition device (wret : Z) (reply : list byte -> read_reply)
    (info : ioctl_reply) : hidraw (list byte) :=
  {| hid_write := fun _ buf => (wret, buf);
     hid_read := fun last => (reply last, last);
     hid_rawinfo := fun _ => info |}.

(** A host whose only node is [/dev/hidraw0]; 2 is [ENOENT]. *)
Definition machine (order : endianness) (d : hidraw (list byte))
  : host (list byte) :=
  {| byte_order := order;
     nodes := fun name =>
       if String.eqb name "/dev/hidraw0" then OpenGives [] else OpenFails 2;
     driver := d |}.

(** The payload a well-behaved supply sends for a command: a name for the
    identity command, the word [0x1199] for register [0x8d], zeros
    elsewhere. *)
Definition payload (op reg : byte) : list byte :=
  if Byte.eqb op xfe then
    resize 62 x00 (list_byte_of_string "TestPSU")
  else if Byte.eqb reg x8d then resize 62 x00 [x99; x11]
  else replicate 62 x00.

Definition echo (last : list byte) : read_reply :=
  let op := nth 1 last x00 in
  let reg := nth 2 last x00 in
  ReadGives (op :: reg :: payload op reg).

Definition rm650i : ioctl_reply := IoctlGives 3 0x1b1c 0x1c0a.

Definition psu : hidraw (list byte) := device 65 echo rm650i.

(** A device that answers every command with the echo of another one. *)
Definition desynced : hidraw (list byte) :=
  device 65 (fun _ => ReadGives (x03 :: x00 :: replicate 62 xff)) rm650i.

(** A device whose strings fill the payload and hold no zero byte. *)
Definition unterminated : hidraw (list byte) :=
  device 65
    (fun last => ReadGives (nth 1 last x00 :: nth 2 last x00 :: replicate 62 x41))
    rm650i.

(** A host whose device takes only 17 bytes of a report. *)
Definition short_write : host (list byte) :=
  machine LittleEndian (device 17 echo rm650i).

(** A host whose device answers with three bytes. *)
Definition short_read : host (list byte) :=
  machine LittleEndian (device 65 (fun _ => ReadGives [x03; x8d; x01]) rm650i).

(** A host whose device reports the given USB identifiers. *)
Definition reporting (vid pid : Z) : host (list byte) :=
  machine LittleEndian (device 65 echo (IoctlGives 3 vid pid)).

(** A supply that stops answering once rail 1 is selected. *)
Definition flaky : hidraw (list byte) :=
  device 65
    (fun last => if Byte.eqb (nth 3 last x00) x01 then ReadFails else echo last)
    rm650i.

(** A host with three nodes: [/dev/hidraw0] cannot be opened for lack of
    permission (13 is [EACCES]), [/dev/hidraw1] is some other device, and
    [/dev/hidraw2] is a supply when [with_psu] holds and is absent
    otherwise; nothing else exists. The state of a device is the last
    report and its USB product identifier. *)
Definition crowded (with_psu : bool) : host (list byte * Z) :=
  {| byte_order := LittleEndian;
     nodes := fun name =>
       if String.eqb name "/dev/hidraw0" then OpenFails 13
       else if String.eqb name "/dev/hidraw1" then OpenGives ([], 0x0001)
       else if String.eqb name "/dev/hidraw2" && with_psu
            then OpenGives ([], 0x1c0b)
       else OpenFails 2;
     driver :=
       {| hid_write := fun s buf => (65, (buf, snd s));
          hid_read := fun s => (echo (fst s), s);
          hid_rawinfo := fun s => IoctlGives 3 0x1b1c (snd s) |} |}.

Definition no_junk : var -> list byte := fun _ => [].

(** A process with the device open and every object zeroed. *)
Definition opened : proc (list byte) :=
  {| fd_state := Some []; errno := 0;
     mem := fun x => replicate (sizeof x) x00; trace := [] |}.

End Sim.

(** ** Assertions on processes

    The vocabulary of the theorems: what a call delivers, the triples of
    the program logic, and the invariant the three monitors maintain. *)

(** The commands of one complete session, in order. *)
Definition session_commands : list command :=
  [ (xfe, x03, x00); (x03, x99, x00); (x03, x9a, x00);
    (x03, xd1, x00); (x03, xd2, x00);
    (x03, x8d, x00); (x03, x8e, x00); (x03, x90, x00); (x03, x88, x00);
    (x03, xee, x00);
    (x02, x00, x00); (x03, x8b, x00); (x03, x8c, x00); (x03, x96, x00);
    (x02, x00, x01); (x03, x8b, x00); (x03, x8c, x00); (x03, x96, x00);
    (x02, x00, x02); (x03, x8b, x00); (x03, x8c, x00); (x03, x96, x00);
    (x02, x00, x00) ].

(** The value of [found] when the [ioctl] has succeeded. *)
Definition found_for (info : hidraw_devinfo) : bool :=
  if negb (vendor info =? 0x1b1c) then false
  else existsb (fun p => product info =? p) products.

Section Assertions.
Context {S : Type}.

(** The process [p] with more events in its trace. *)
Definition extend (p : proc S) (evs : list event) : proc S :=
  {| fd_state := fd_state p; errno := errno p; mem := mem p;
     trace := trace p ++ evs |}.

(** The bytes the caller's objects hold after [memcpy(buf, buf_r + 2, n)]
    with the clamped [n]. *)
Definition delivered (buf : option var) (buf_size : Z) (buf_r : list byte)
    (m : var -> list byte) : var -> list byte :=
  match buf with
  | Some dst =>
      if 0 <? buf_size then
        let n := Z.to_nat (Z.min buf_size 62) in
        fun y => if var_eqb dst y
                 then take n (drop 2 buf_r) ++ drop n (m dst)
                 else m y
      else m
  | None => m
  end.

(** [triple P m Q X]: from a state in [P], [m] returns in [Q] or exits in
    [X], and never leaves the bounds of an object. *)
Definition triple {A : Type} (P : proc S -> Prop) (m : M S A)
    (Q : A -> proc S -> Prop) (X : proc S -> Prop) : Prop :=
  forall p, P p ->
    match m p with
    | (Ret a, p') => Q a p'
    | (Exit _, p') => X p'
    | (Fault, _) => False
    end.

(** The state of the three monitors and of the objects. [t] says whether
    the last byte of [name] is known to be zero. *)
Definition Inv (t : bool) (g : gate) (r : rails) (cmds : list command)
    (p : proc S) : Prop :=
  (forall x, length (mem p x) = sizeof x)
  /\ (t = true -> nth 62 (mem p Name) x00 = x00)
  /\ monitor gate_step Closed (trace p) = Some g
  /\ monitor rail_step no_rail (trace p) = Some r
  /\ forallb text_ok (trace p) = true
  /\ commands (trace p) = cmds.

Definition audited (p : proc S) : Prop :=
  accepts gate_step Closed (trace p) = true
  /\ accepts rail_step no_rail (trace p) = true
  /\ forallb text_ok (trace p) = true.

(** The object and size a caller may pass: the clamped size fits the
    object, and a read into [name] leaves its last byte alone. *)
Definition fits (buf : option var) (n : Z) : Prop :=
  match buf with
  | Some dst =>
      (Z.to_nat (Z.min n 62) <= sizeof dst)%nat /\ (dst = Name -> n <= 62)
  | None => True
  end.

(** What is known once the device has been looked for: no descriptor
    ([fd = -1]), or the descriptor of a device that passed the gate. *)
Definition opened_or_not (r : rails) (cmds : list command) (fd : Z)
    (p : proc S) : Prop :=
  (fd = -1 /\ exists g, Inv false g r cmds p)
  \/ (fd = 3 /\ Inv false Accepted r cmds p).

(** How a run of [main] may end. *)
Definition ended (code : Z) (p : proc S) : Prop :=
  audited p
  /\ ((code = 1 /\ commands (trace p) = [])
      \/ (code = 0 /\ commands (trace p) = session_commands
          /\ length (mem p Name) = 63%nat
          /\ nth 62 (mem p Name) x00 = x00)).

End Assertions.

(** ** Device nodes, as the program finds them *)

(** What probing a node comes to: it does not open, its [ioctl] fails, it
    identifies itself as something else, or it is a supported supply. *)
Inductive node_status :=
| NoNode (errno : Z)
| NoInfo (errno : Z)
| NotEligible (info : hidraw_devinfo)
| Eligible (info : hidraw_devinfo).

Section Probe.
Context {S : Type} (H : host S).

Definition probe (name : string) : node_status :=
  match nodes H name with
  | OpenFails e => NoNode e
  | OpenGives s0 =>
      match hid_rawinfo (driver H) s0 with
      | IoctlFails e => NoInfo e
      | IoctlGives bus vid pid =>
          if found_for (devinfo_of_usb bus vid pid)
          then Eligible (devinfo_of_usb bus vid pid)
          else NotEligible (devinfo_of_usb bus vid pid)
      end
  end.

Definition is_eligible (name : string) : bool :=
  match probe name with Eligible _ => true | _ => false end.

(** The events of one [try_open_device(name, report_errors)]. *)
Definition probe_events (name : string) (report_errors : bool) : list event :=
  match probe name with
  | NoNode _ =>
      EvOpen name (-1) :: (if report_errors then [EvStderr (ErrOpen name)] else [])
  | NoInfo _ =>
      [EvOpen name 3; EvIoctl (-1) devinfo_zero; EvStderr ErrIoctl]
      ++ (if report_errors then [EvStderr (ErrUnexpectedDevice 0 0)] else [])
      ++ [EvClose]
  | NotEligible info =>
      [EvOpen name 3; EvIoctl 0 info]
      ++ (if report_errors
          then [EvStderr (ErrUnexpectedDevice (vendor info) (product info))]
          else [])
      ++ [EvClose]
  | Eligible info => [EvOpen name 3; EvIoctl 0 info]
  end.

(** The descriptor left open by the call. *)
Definition probe_fd_state (name : string) : option S :=
  match nodes H name with
  | OpenGives s0 => if is_eligible name then Some s0 else None
  | OpenFails _ => None
  end.

(** [errno] after the call, from [errno] before it. *)
Definition probe_errno (name : string) (e : Z) : Z :=
  match probe name with
  | NoNode e' | NoInfo e' => e'
  | NotEligible _ | Eligible _ => e
  end.

End Probe.

Definition is_stderr (e : event) : bool :=
  match e with EvStderr _ => true | _ => false end.

Definition is_read (e : event) : bool :=
  match e with EvRead _ _ => true | _ => false end.

Definition is_write (e : event) : bool :=
  match e with EvWrite _ _ => true | _ => false end.

(** ** What a run shows *)

(** A line of telemetry without its value. *)
Inductive line_label :=
| LText (label : string)
| LSeconds (label : string)
| LReading (fmt : string) (arg : option Z).

(** What is kept of an event: the node opened, the command written, the
    line of telemetry printed, the descriptor closed. The [ioctl], the
    reads, stderr and dumps are not shown. *)
Inductive obs :=
| ObsOpen (name : string)
| ObsClose
| ObsCmd (c : command)
| ObsLine (l : line_label).

Definition observe (e : event) : option obs :=
  match e with
  | EvOpen name _ => Some (ObsOpen name)
  | EvClose => Some ObsClose
  | EvWrite buf _ => Some (ObsCmd (command_of buf))
  | EvStdout (OutText l _) => Some (ObsLine (LText l))
  | EvStdout (OutSeconds l _ _ _) => Some (ObsLine (LSeconds l))
  | EvStdout (OutReading f a _) => Some (ObsLine (LReading f a))
  | _ => None
  end.

Definition view (tr : list event) : list obs := omap observe tr.

Definition opens (tr : list event) : list string :=
  omap (fun e => match e with EvOpen name _ => Some name | _ => None end) tr.

Definition lines (tr : list event) : list line_label :=
  omap (fun e => match observe e with Some (ObsLine l) => Some l | _ => None end) tr.

(** The commands among observations. *)
Definition commands_of (v : list obs) : list command :=
  omap (fun o => match o with ObsCmd c => Some c | _ => None end) v.

Definition lines_of (v : list obs) : list line_label :=
  omap (fun o => match o with ObsLine l => Some l | _ => None end) v.

(** One complete session: each command followed by the line it feeds. *)
Definition session_view : list obs :=
  [ ObsCmd (xfe, x03, x00); ObsLine (LText "name:");
    ObsCmd (x03, x99, x00); ObsLine (LText "vendor:");
    ObsCmd (x03, x9a, x00); ObsLine (LText "product:");
    ObsCmd (x03, xd1, x00); ObsLine (LSeconds "powered:");
    ObsCmd (x03, xd2, x00); ObsLine (LSeconds "uptime:");
    ObsCmd (x03, x8d, x00); ObsLine (LReading "temp1" None);
    ObsCmd (x03, x8e, x00); ObsLine (LReading "temp2" None);
    ObsCmd (x03, x90, x00); ObsLine (LReading "fan rpm" None);
    ObsCmd (x03, x88, x00); ObsLine (LReading "supply volts" None);
    ObsCmd (x03, xee, x00); ObsLine (LReading "total watts" None);
    ObsCmd (x02, x00, x00);
    ObsCmd (x03, x8b, x00); ObsLine (LReading "output%u volts" (Some 0));
    ObsCmd (x03, x8c, x00); ObsLine (LReading "output%u amps" (Some 0));
    ObsCmd (x03, x96, x00); ObsLine (LReading "output%u watts" (Some 0));
    ObsCmd (x02, x00, x01);
    ObsCmd (x03, x8b, x00); ObsLine (LReading "output%u volts" (Some 1));
    ObsCmd (x03, x8c, x00); ObsLine (LReading "output%u amps" (Some 1));
    ObsCmd (x03, x96, x00); ObsLine (LReading "output%u watts" (Some 1));
    ObsCmd (x02, x00, x02);
    ObsCmd (x03, x8b, x00); ObsLine (LReading "output%u volts" (Some 2));
    ObsCmd (x03, x8c, x00); ObsLine (LReading "output%u amps" (Some 2));
    ObsCmd (x03, x96, x00); ObsLine (LReading "output%u watts" (Some 2));
    ObsCmd (x02, x00, x00) ].

Definition opens_of (v : list obs) : list string :=
  omap (fun o => match o with ObsOpen name => Some name | _ => None end) v.

Definition is_select (c : command) : bool :=
  Byte.eqb (fst (fst c)) x02 && Byte.eqb (snd (fst c)) x00.

Section Discovery.
Context {S : Type} (H : host S).

(** The events of the loop over [/dev/hidraw0] ... [/dev/hidraw15], for the
    values of [i] that are left. *)
Fixpoint scan_events (left : list nat) : list event :=
  match left with
  | [] => []
  | i :: rest =>
      probe_events H (hidraw_path i) false
      ++ (if is_eligible H (hidraw_path i) then [] else scan_events rest)
  end.

(** Whether the loop finds a supported supply. *)
Definition scan_finds (left : list nat) : bool :=
  existsb (fun i => is_eligible H (hidraw_path i)) left.

(** [had_eacces] at the end of the loop, from its value and [errno] at the
    start. *)
Fixpoint scan_had (left : list nat) (had : bool) (e : Z) : bool :=
  match left with
  | [] => had
  | i :: rest =>
      if is_eligible H (hidraw_path i) then had
      else
        let e' := probe_errno H (hidraw_path i) e in
        scan_had rest (if e' =? EACCES then true else had) e'
  end.

(** Whether [argv] makes [main] print the usage text. *)
Definition wants_usage (argv : list string) : bool :=
  (1 <? Z.of_nat (length argv))
  && (first_is_dash (nth 1 argv EmptyString)
      || negb (Z.of_nat (length argv) =? 2)).

(** Whether [main] gets a descriptor. *)
Definition finds_device (argv : list string) : bool :=
  if 1 <? Z.of_nat (length argv) then
    negb (wants_usage argv) && is_eligible H (nth 1 argv EmptyString)
  else scan_finds (seq 0 16).

(** The events of [main] up to the test [fd == -1]. *)
Definition open_events (argv : list string) : list event :=
  if 1 <? Z.of_nat (length argv) then
    if wants_usage argv then [EvStderr (ErrUsage (nth 0 argv EmptyString))]
    else probe_events H (nth 1 argv EmptyString) true
  else
    scan_events (seq 0 16)
    ++ (if scan_finds (seq 0 16) then []
        else EvStderr ErrNoDevices
             :: (if scan_had (seq 0 16) false 0
                 then [EvStderr ErrNoPermission] else [])).

End Discovery.

Section Stops.
Context {S : Type}.

(** [triple_x] is [triple] with the exit status in view. *)
Definition triple_x {A : Type} (P : proc S -> Prop) (m : M S A)
    (Q : A -> proc S -> Prop) (X : Z -> proc S -> Prop) : Prop :=
  forall p, P p ->
    match m p with
    | (Ret a, p') => Q a p'
    | (Exit c, p') => X c p'
    | (Fault, _) => False
    end.

(** Since the trace was [tr0], the process has shown [v]. *)
Definition Shown (t : bool) (tr0 : list event) (v : list obs) (p : proc S)
  : Prop :=
  (forall x, length (mem p x) = sizeof x)
  /\ (t = true -> nth 62 (mem p Name) x00 = x00)
  /\ exists evs, trace p = tr0 ++ evs /\ view evs = v.

(** The session has stopped at a command: what it has shown since [tr0]
    is a beginning of [session_view] that ends in a command. *)
Definition Stopped (tr0 : list event) (c : Z) (p : proc S) : Prop :=
  c = 1
  /\ exists evs n cmd,
       trace p = tr0 ++ evs
       /\ view evs = take n session_view
       /\ (n <= length session_view)%nat
       /\ last (take n session_view) = Some (ObsCmd cmd).

End Stops.

(** ** The text of a dump

    [dump(buf, size)] line by line; [puts("")] ends each line, so the text
    is kept as the list of its lines. *)

(** The digits of ["%02x"]. *)
Definition hex_digit (n : N) : byte :=
  nth (N.to_nat n) (list_byte_of_string "0123456789abcdef") x00.

(** [printf(" %02x", b)] *)
Definition hex_cell (b : byte) : list byte :=
  [x20; hex_digit (Byte.to_N b / 16); hex_digit (Byte.to_N b mod 16)].

(** [0x20 <= c && c <= 0x7f ? c : '.'] *)
Definition dump_char (c : byte) : byte :=
  if ((0x20 <=? Byte.to_N c) && (Byte.to_N c <=? 0x7f))%N then c else x2e.

(** The first inner loop: sixteen cells, blank where [i + j] is past the
    end. *)
Definition dump_hex (buf : list byte) (size i : nat) : list byte :=
  flat_map (fun j => if (i + j <? size)%nat
                     then hex_cell (nth (i + j) buf x00)
                     else [x20; x20; x20])
    (seq 0 16).

(** The second inner loop, over the values of [j] that are left; it
    breaks where [i + j] is past the end. *)
Fixpoint dump_ascii (buf : list byte) (size i : nat) (js : list nat)
  : list byte :=
  match js with
  | [] => []
  | j :: rest =>
      if (i + j <? size)%nat
      then dump_char (nth (i + j) buf x00) :: dump_ascii buf size i rest
      else []
  end.

Definition dump_line (buf : list byte) (size i : nat) : list byte :=
  dump_hex buf size i ++ [x20; x20] ++ dump_ascii buf size i (seq 0 16).

(** The outer loop [for (i = 0; i < size; i += 16)]; [fuel] bounds the
    number of lines. *)
Fixpoint dump_from (fuel : nat) (buf : list byte) (size i : nat)
  : list (list byte) :=
  match fuel with
  | O => []
  | Datatypes.S fuel' =>
      if (i <? size)%nat
      then dump_line buf size i :: dump_from fuel' buf size (i + 16)
      else []
  end.

Definition dump_text (buf : list byte) (size : nat) : list (list byte) :=
  dump_from size buf size 0.

(** Reading the hex column back: the value of a digit, the bytes of the
    cells of a line up to the first blank cell, the bytes of a text. *)
Definition hex_value (c : byte) : option N :=
  let n := Byte.to_N c in
  if ((0x30 <=? n) && (n <=? 0x39))%N then Some (n - 0x30)%N
  else if ((0x61 <=? n) && (n <=? 0x66))%N then Some (n - 0x61 + 10)%N
  else None.

Fixpoint unhex_cells (n : nat) (text : list byte) : list byte :=
  match n with
  | O => []
  | Datatypes.S n' =>
      match text with
      | _ :: h :: l :: rest =>
          match hex_value h, hex_value l with
          | Some a, Some c =>
              match Byte.of_N (16 * a + c) with
              | Some b => b :: unhex_cells n' rest
              | None => []
              end
          | _, _ => []
          end
      | _ => []
      end
  end.

Definition undump (text : list (list byte)) : list byte :=
  flat_map (unhex_cells 16) text.


(** ** The label of a reading

    What [print_std_reg] prints before the value. [vprintf] is modelled
    for the formats the program passes: plain text with at most one ["%u"],
    which stands for the decimal digits of the argument. *)

Definition decimal (n : Z) : list byte :=
  list_byte_of_string (NilZero.string_of_uint (N.to_uint (Z.to_N n))).

Fixpoint vprintf_u (fmt : list byte) (arg : option Z) : list byte :=
  match fmt with
  | [] => []
  | c :: rest =>
      match rest, arg with
      | u :: rest', Some n =>
          if Byte.eqb c x25 && Byte.eqb u x75
          then decimal n ++ vprintf_u rest' None
          else c :: vprintf_u rest arg
      | _, _ => c :: vprintf_u rest arg
      end
  end.

(** [len += vprintf(fmt, ap); len += printf(": ");
    for (; len < 16; len++) fputs(" ", stdout);] *)
Definition reading_prefix (fmt : string) (arg : option Z) : list byte :=
  let label := vprintf_u (list_byte_of_string fmt) arg in
  let len := (length label + 2)%nat in
  label ++ [x3a; x20] ++ replicate (16 - len) x20.

(** * Theorems *)

(** ** The codec *)

Section CodecFacts.
Import CInt Codec.

Ltac machine_arith :=
  cbv [mkv_p mkv_v int_shr int_shl to_int to_int16 to_signed to_unsigned
       spec_exponent spec_mantissa sign_extend field is_uint16] in *;
  rewrite ?Z.shiftr_div_pow2, ?Z.shiftl_mul_pow2, ?Z.land_ones by lia;
  change (2 ^ 32) with 4294967296 in *; change (2 ^ (32 - 1)) with 2147483648 in *;
  change (2 ^ 16) with 65536 in *; change (2 ^ (16 - 1)) with 32768 in *;
  change (2 ^ 21) with 2097152 in *; change (2 ^ 11) with 2048 in *;
  change (2 ^ 5) with 32 in *; change (2 ^ 0) with 1 in *.

(** The C expression for the exponent, as plain arithmetic. *)
Lemma mkv_p_arith (raw : Z) :
  is_uint16 raw ->
  mkv_p raw = if raw <? 32768 then raw / 2048 else raw / 2048 - 32.
Proof.
  intros H. machine_arith.
  repeat match goal with
         | |- context [?a <? ?b] => destruct (Z.ltb_spec a b)
         end; Z.div_mod_to_equations; lia.
Qed.

(** The C expression for the mantissa, as plain arithmetic. *)
Lemma mkv_v_arith (raw : Z) :
  is_uint16 raw ->
  mkv_v raw =
    if raw mod 2048 <? 1024 then raw mod 2048 else raw mod 2048 - 2048.
Proof.
  intros H. machine_arith.
  repeat match goal with
         | |- context [?a <? ?b] => destruct (Z.ltb_spec a b)
         end; Z.div_mod_to_equations; lia.
Qed.

Lemma spec_exponent_arith (raw : Z) :
  is_uint16 raw ->
  spec_exponent raw = if raw <? 32768 then raw / 2048 else raw / 2048 - 32.
Proof.
  intros H. cbv [spec_exponent sign_extend field].
  rewrite Z.shiftr_div_pow2, Z.land_ones by lia.
  change (5 - 1) with 4.
  pose proof (Z.testbit_spec' ((raw / 2 ^ 11) mod 2 ^ 5) 4 ltac:(lia)) as T.
  change (2 ^ 11) with 2048 in *. change (2 ^ 5) with 32 in *.
  change (2 ^ 4) with 16 in *. unfold is_uint16 in H.
  destruct (Z.testbit _ 4); simpl Z.b2z in T;
    destruct (Z.ltb_spec raw 32768); Z.div_mod_to_equations; lia.
Qed.

Lemma spec_mantissa_arith (raw : Z) :
  is_uint16 raw ->
  spec_mantissa raw =
    if raw mod 2048 <? 1024 then raw mod 2048 else raw mod 2048 - 2048.
Proof.
  intros H. cbv [spec_mantissa sign_extend field].
  rewrite Z.shiftr_0_r, Z.land_ones by lia.
  change (11 - 1) with 10.
  pose proof (Z.testbit_spec' (raw mod 2 ^ 11) 10 ltac:(lia)) as T.
  change (2 ^ 11) with 2048 in *. change (2 ^ 10) with 1024 in *.
  unfold is_uint16 in H.
  destruct (Z.testbit _ 10); simpl Z.b2z in T;
    destruct (Z.ltb_spec (raw mod 2048) 1024); Z.div_mod_to_equations; lia.
Qed.

Lemma mkv_p_range (raw : Z) : is_uint16 raw -> -16 <= mkv_p raw <= 15.
Proof.
  intros H. rewrite (mkv_p_arith raw H). unfold is_uint16 in H.
  destruct (Z.ltb_spec raw 32768); Z.div_mod_to_equations; lia.
Qed.

Lemma mkv_v_range (raw : Z) : is_uint16 raw -> -1024 <= mkv_v raw <= 1023.
Proof.
  intros H. rewrite (mkv_v_arith raw H). unfold is_uint16 in H.
  destruct (Z.ltb_spec (raw mod 2048) 1024); Z.div_mod_to_equations; lia.
Qed.

(** The shift on the 16-bit signed reading of the word is the same number
    as the shift the code performs after widening to [int]. *)
Lemma mkv_p_int16_shift (raw : Z) :
  is_uint16 raw -> mkv_p raw = Z.shiftr (to_int16 raw) 11.
Proof.
  intros H. rewrite (mkv_p_arith raw H).
  cbv [to_int16 to_signed]. rewrite Z.shiftr_div_pow2 by lia.
  change (2 ^ 16) with 65536. change (2 ^ (16 - 1)) with 32768.
  change (2 ^ 11) with 2048. unfold is_uint16 in H.
  destruct (Z.ltb_spec raw 32768), (Z.ltb_spec (raw mod 65536) 32768);
    Z.div_mod_to_equations; lia.
Qed.

Lemma pow2_scaled (p : Z) :
  -16 <= p <= 15 -> (pow2 p == (2 ^ (p + 16)) # 65536)%Q.
Proof.
  intros Hp.
  assert (Hc : p = -16 \/ p = -15 \/ p = -14 \/ p = -13 \/ p = -12 \/ p = -11
               \/ p = -10 \/ p = -9 \/ p = -8 \/ p = -7 \/ p = -6 \/ p = -5
               \/ p = -4 \/ p = -3 \/ p = -2 \/ p = -1 \/ p = 0 \/ p = 1
               \/ p = 2 \/ p = 3 \/ p = 4 \/ p = 5 \/ p = 6 \/ p = 7 \/ p = 8
               \/ p = 9 \/ p = 10 \/ p = 11 \/ p = 12 \/ p = 13 \/ p = 14
               \/ p = 15) by lia.
  repeat (destruct Hc as [->|Hc]; [reflexivity|]). subst p. reflexivity.
Qed.

(** [mkv raw] as a fraction with denominator [2^16]. *)
Lemma mkv_scaled (raw : Z) :
  is_uint16 raw ->
  (mkv raw == (mkv_v raw * 2 ^ (mkv_p raw + 16)) # 65536)%Q.
Proof.
  intros H. unfold mkv. rewrite (pow2_scaled _ (mkv_p_range raw H)).
  unfold Qeq, Qmult, inject_Z. simpl. lia.
Qed.

(** [pow2] on the exponents of the codec is the power of integers. *)
Lemma pow2_scale2 (p : Z) : -16 <= p <= 15 -> (pow2 p == scale2 p)%Q.
Proof.
  intros Hp.
  assert (Hc : p = -16 \/ p = -15 \/ p = -14 \/ p = -13 \/ p = -12 \/ p = -11
               \/ p = -10 \/ p = -9 \/ p = -8 \/ p = -7 \/ p = -6 \/ p = -5
               \/ p = -4 \/ p = -3 \/ p = -2 \/ p = -1 \/ p = 0 \/ p = 1
               \/ p = 2 \/ p = 3 \/ p = 4 \/ p = 5 \/ p = 6 \/ p = 7 \/ p = 8
               \/ p = 9 \/ p = 10 \/ p = 11 \/ p = 12 \/ p = 13 \/ p = 14
               \/ p = 15) by lia.
  repeat (destruct Hc as [->|Hc]; [reflexivity|]). subst p. reflexivity.
Qed.

(** The product the code forms needs no rounding in binary64. *)
Lemma mkv_binary64_exact (raw : Z) : is_uint16 raw -> binary64_exact (mkv raw).
Proof.
  intros H. exists (mkv_v raw), (mkv_p raw).
  pose proof (mkv_p_range raw H). pose proof (mkv_v_range raw H).
  split; [|split].
  - change (2 ^ 53) with 9007199254740992. lia.
  - lia.
  - unfold mkv. rewrite (pow2_scale2 _ (mkv_p_range raw H)). reflexivity.
Qed.

(** C1. For every 16-bit word [raw], [mkv raw] is [v * 2^p] where [p] is
    bits 15..11 sign-extended from five bits (the same number as the signed
    16-bit reading of the word shifted right arithmetically by 11) and [v]
    is the low eleven bits sign-extended. The scale is the power of
    integers: [mkv raw] is the documented product [spec_decode raw], that is
    [v * 2^(p + 16) / 2^16] with [p] between -16 and 15 and [v] between
    -1024 and 1023. The product is exact in double precision; [mkv 0] is 0,
    the word with mantissa 1 and exponent 0 decodes to 1, and the words with
    the boundary mantissas and exponents decode to [-1024 * 2^15],
    [1023 * 2^15], [-1024 * 2^-16] and [1023 * 2^-16]. *)
Theorem mkv_decodes_linear11 (raw : Z) (Hraw : is_uint16 raw) :
  mkv_p raw = spec_exponent raw
  /\ mkv_p raw = Z.shiftr (to_int16 raw) 11
  /\ mkv_v raw = spec_mantissa raw
  /\ (mkv raw == spec_decode raw)%Q
  /\ (mkv raw
      == (spec_mantissa raw * 2 ^ (spec_exponent raw + 16)) # 65536)%Q
  /\ (0 <= spec_exponent raw ->
      (mkv raw == inject_Z (spec_mantissa raw * 2 ^ spec_exponent raw))%Q)
  /\ -16 <= spec_exponent raw <= 15
  /\ -1024 <= spec_mantissa raw <= 1023
  /\ binary64_exact (mkv raw)
  /\ (mkv 0 == 0)%Q
  /\ (mkv_v raw = 1 -> mkv_p raw = 0 -> (mkv raw == 1)%Q)
  /\ mkv_v 1 = 1 /\ mkv_p 1 = 0 /\ (mkv 1 == 1)%Q
  /\ (mkv 0x7c00 == -33554432)%Q /\ (mkv 0x7bff == 33521664)%Q
  /\ (mkv 0x8400 == -1024 # 65536)%Q /\ (mkv 0x83ff == 1023 # 65536)%Q.
Proof.
  assert (Hp : mkv_p raw = spec_exponent raw)
    by (rewrite mkv_p_arith, spec_exponent_arith; auto).
  assert (Hv : mkv_v raw = spec_mantissa raw)
    by (rewrite mkv_v_arith, spec_mantissa_arith; auto).
  pose proof (mkv_p_range raw Hraw) as Rp.
  pose proof (mkv_v_range raw Hraw) as Rv.
  pose proof (mkv_scaled raw Hraw) as Hs.
  rewrite Hp in Rp. rewrite Hv in Rv. rewrite Hp, Hv in Hs.
  split; [exact Hp|].
  split; [apply mkv_p_int16_shift, Hraw|].
  split; [exact Hv|].
  split.
  { unfold mkv, spec_decode. rewrite <- Hp, <- Hv.
    rewrite (pow2_scale2 _ (mkv_p_range raw Hraw)). reflexivity. }
  split; [exact Hs|].
  split.
  { intros He. rewrite Hs. unfold Qeq, inject_Z. cbn [Qnum Qden].
    rewrite Z.pow_add_r by lia. change (2 ^ 16) with 65536. lia. }
  split; [exact Rp|]. split; [exact Rv|].
  split; [apply mkv_binary64_exact, Hraw|].
  split; [reflexivity|].
  split.
  { intros E1 E0. unfold mkv. rewrite E1, E0. reflexivity. }
  repeat split.
Qed.

Lemma mkv_decodes_linear11_witness :
  is_uint16 64513 /\ mkv_p 64513 = -1 /\ mkv_v 64513 = -1023
  /\ (spec_decode 64513 == -1023 # 2)%Q
  /\ (mkv 64513 == -1023 # 2)%Q.
Proof.
  assert (H : is_uint16 64513) by (unfold is_uint16; lia).
  destruct (mkv_decodes_linear11 64513 H) as (_ & _ & _ & Hd & _).
  assert (Hs : (spec_decode 64513 == -1023 # 2)%Q) by reflexivity.
  split; [exact H|]. split; [reflexivity|]. split; [reflexivity|].
  split; [exact Hs|].
  exact (Qeq_trans _ _ _ Hd Hs).
Defined.

(** C8 (as amended). The word [0x1199] has mantissa [0x199 = 409] and
    exponent 2 (its top five bits are [00010], so no sign extension
    applies); it decodes to [409 * 2^2 = 1636], well within [1e-9]. *)
Theorem mkv_0x1199 :
  mkv_v 4505 = 409 /\ mkv_p 4505 = 2 /\ spec_exponent 4505 = 2
  /\ (mkv 4505 == inject_Z 409 * pow2 2)%Q
  /\ (mkv 4505 == 1636)%Q
  /\ (Qabs (mkv 4505 - 1636) <= 1 # 1000000000)%Q.
Proof. repeat split; vm_compute; discriminate. Qed.

(** C8 (as stated) fails: the exponent of [0x1199] is not -15, and the
    decoded value is further than [1e-9] from [409 * 2^-15]. *)
Lemma mkv_0x1199_not_minus15 :
  mkv_p 4505 <> -15
  /\ ~ (Qabs (mkv 4505 - inject_Z 409 * pow2 (-15)) <= 1 # 1000000000)%Q.
Proof.
  split.
  - discriminate.
  - vm_compute. intros H. apply H. reflexivity.
Qed.

End CodecFacts.

(** ** The framer *)

Lemma byte_eqb_refl (b : byte) : Byte.eqb b b = true.
Proof. apply Byte.byte_dec_lb. reflexivity. Qed.

Section Framer.
Context {S : Type} (H : host S).

Lemma buf_w_bytes (b0 b1 b2 : byte) :
  buf_w b0 b1 b2 = x00 :: b0 :: b1 :: b2 :: replicate 61 x00.
Proof. reflexivity. Qed.

Lemma command_of_buf_w (b0 b1 b2 : byte) :
  command_of (buf_w b0 b1 b2) = (b0, b1, b2).
Proof. reflexivity. Qed.

(** What one call of [send_recv_cmd] does, whatever the device does. *)
Lemma send_recv_cmd_shape (b0 b1 b2 : byte) (buf : option var) (n : Z)
    (p : proc S) :
  exists ret evs,
    trace (snd (send_recv_cmd H b0 b1 b2 buf n p))
    = trace p ++ EvWrite (buf_w b0 b1 b2) ret :: evs
    /\ forallb after_write evs = true
    /\ match fst (send_recv_cmd H b0 b1 b2 buf n p) with
       | Ret _ =>
           ret = 65 /\ exists buf_r,
             evs = [EvRead 64 64] /\ length buf_r = 64%nat
             /\ nth 0 buf_r x00 = b0 /\ nth 1 buf_r x00 = b1
             /\ mem (snd (send_recv_cmd H b0 b1 b2 buf n p))
                = delivered buf n buf_r (mem p)
       | Exit c =>
           c = 1 /\ mem (snd (send_recv_cmd H b0 b1 b2 buf n p)) = mem p
       | Fault =>
           mem (snd (send_recv_cmd H b0 b1 b2 buf n p)) = mem p
           /\ exists dst, buf = Some dst /\ 0 < n
              /\ (length (mem p dst) < Z.to_nat (Z.min n 62))%nat
       end.
Proof.
  unfold send_recv_cmd, mbind, M_bind, sys_write, sys_read.
  destruct (fd_state p) as [s|] eqn:Hfd; simpl.
  2:{ exists (-1), [EvStderr (ErrWrite (-1) 65)]. simpl. rewrite <- app_assoc. auto. }
  destruct (hid_write (driver H) s (buf_w b0 b1 b2)) as [ret s1] eqn:Hw.
  exists ret. simpl.
  destruct (Z.eqb_spec ret 65) as [->|Hne]; simpl.
  2:{ exists [EvStderr (ErrWrite ret 65)]. rewrite <- app_assoc. auto. }
  destruct (hid_read (driver H) s1) as [reply s2] eqn:Hr. simpl.
  destruct (read_result 64 reply) as [rret buf_r] eqn:Hrr. simpl.
  destruct (Z.eqb_spec rret 64) as [->|Hne]; simpl.
  2:{ destruct (0 <? rret); simpl.
      - eexists. rewrite <- !app_assoc. simpl. split; [reflexivity|]. auto.
      - eexists. rewrite <- !app_assoc. simpl. split; [reflexivity|]. auto. }
  assert (Hlen : length buf_r = 64%nat).
  { destruct reply; simpl in Hrr; inversion Hrr; subst; lia. }
  destruct (Byte.eqb (nth 0 buf_r x00) b0) eqn:E0; simpl.
  2:{ eexists. rewrite <- !app_assoc. simpl. split; [reflexivity|]. auto. }
  destruct (Byte.eqb (nth 1 buf_r x00) b1) eqn:E1; simpl.
  2:{ eexists. rewrite <- !app_assoc. simpl. split; [reflexivity|]. auto. }
  apply Byte.byte_dec_bl in E0, E1.
  destruct buf as [dst|]; simpl.
  2:{ exists [EvRead 64 64]. rewrite <- !app_assoc. simpl.
      repeat split; auto. exists buf_r. auto. }
  destruct (Z.ltb_spec 0 n) as [Hn|Hn]; simpl.
  2:{ exists [EvRead 64 64]. rewrite <- !app_assoc. simpl.
      repeat split; auto. exists buf_r. auto. }
  assert (Hk : Z.to_nat (if 62 <? n then 62 else n) = Z.to_nat (Z.min n 62)).
  { destruct (Z.ltb_spec 62 n); f_equal; lia. }
  change (64 - 2) with 62. rewrite Hk.
  unfold memcpy, mbind, M_bind, load, store, fault. simpl.
  assert (Hsrc : (Z.to_nat (Z.min n 62) <=? length (drop 2 buf_r))%nat = true).
  { apply Nat.leb_le. rewrite length_drop. lia. }
  rewrite Hsrc, andb_true_r.
  destruct (Nat.leb_spec (Z.to_nat (Z.min n 62)) (length (mem p dst))); simpl.
  - exists [EvRead 64 64]. rewrite <- !app_assoc. simpl.
    repeat split; auto. exists buf_r. auto.
  - exists [EvRead 64 64]. rewrite <- !app_assoc. simpl.
    repeat split; auto. exists dst. auto.
Qed.

Lemma sys_write_mem (buf : list byte) (p : proc S) :
  mem (snd (sys_write H buf p)) = mem p.
Proof.
  unfold sys_write. destruct (fd_state p); [|reflexivity].
  destruct (hid_write _ _ _). reflexivity.
Qed.

Lemma sys_read_mem (size : nat) (p : proc S) :
  mem (snd (sys_read H size p)) = mem p.
Proof.
  unfold sys_read. destruct (fd_state p); [|reflexivity].
  destruct (hid_read _ _). reflexivity.
Qed.

Lemma sys_read_full (p p' : proc S) (buf_r : list byte) :
  sys_read H 64 p = (Ret (64, buf_r), p') -> length buf_r = 64%nat.
Proof.
  unfold sys_read. destruct (fd_state p); [|discriminate].
  destruct (hid_read _ _) as [reply s']. intros E.
  destruct reply; simpl in E; inversion E; subst; lia.
Qed.

(** C5. Whatever the command and the state of the process, the report
    handed to [write] has 65 bytes: a zero, then [op], [reg], [arg], then
    61 zeros; it is built afresh from the command alone, and it is the
    only report the call writes. *)
Theorem outbound_report_layout (b0 b1 b2 : byte) (buf : option var) (n : Z)
    (p : proc S) :
  length (buf_w b0 b1 b2) = 65%nat
  /\ buf_w b0 b1 b2 !! 0%nat = Some x00
  /\ buf_w b0 b1 b2 !! 1%nat = Some b0
  /\ buf_w b0 b1 b2 !! 2%nat = Some b1
  /\ buf_w b0 b1 b2 !! 3%nat = Some b2
  /\ drop 4 (buf_w b0 b1 b2) = replicate 61 x00
  /\ exists ret evs,
       trace (snd (send_recv_cmd H b0 b1 b2 buf n p))
       = trace p ++ EvWrite (x00 :: b0 :: b1 :: b2 :: replicate 61 x00) ret :: evs
       /\ forallb after_write evs = true.
Proof.
  repeat split; try reflexivity.
  destruct (send_recv_cmd_shape b0 b1 b2 buf n p) as (ret & evs & Ht & Hq & _).
  exists ret, evs. rewrite <- buf_w_bytes. auto.
Qed.

(** C4. When [write] returns a count other than 65 the call reports the
    write and exits at once: nothing is read. When [read] returns a count
    other than 64 the call reports the read (dumping what arrived, if
    anything) and exits: the echo is not examined. In both cases no object
    of the caller is touched. *)
Theorem transport_error_exits (b0 b1 b2 : byte) (buf : option var) (n : Z)
    (p p1 : proc S) (wret : Z)
    (Hw : sys_write H (buf_w b0 b1 b2) p = (Ret wret, p1)) :
  (wret <> 65 ->
     send_recv_cmd H b0 b1 b2 buf n p
     = (Exit 1, extend p1 [EvStderr (ErrWrite wret 65)]))
  /\ (wret = 65 ->
      forall (rret : Z) (buf_r : list byte) (p2 : proc S),
        sys_read H 64 p1 = (Ret (rret, buf_r), p2) ->
        rret <> 64 ->
        send_recv_cmd H b0 b1 b2 buf n p
        = (Exit 1,
           extend p2
             (EvStderr (ErrRead rret 64)
              :: if 0 <? rret
                 then [EvStdout (OutDump (take (Z.to_nat rret) buf_r))]
                 else []))
        /\ mem p2 = mem p).
Proof.
  split.
  - intros Hne. unfold send_recv_cmd, mbind, M_bind. rewrite Hw.
    destruct (Z.eqb_spec wret 65); [contradiction|]. reflexivity.
  - intros -> rret buf_r p2 Hr Hne. split.
    + unfold send_recv_cmd, mbind, M_bind. rewrite Hw. simpl. rewrite Hr.
      destruct (Z.eqb_spec rret 64); [contradiction|]. simpl.
      destruct (0 <? rret); simpl; unfold extend; simpl;
        rewrite <- ?app_assoc; reflexivity.
    + pose proof (sys_read_mem 64 p1) as E1. rewrite Hr in E1.
      pose proof (sys_write_mem (buf_w b0 b1 b2) p) as E0. rewrite Hw in E0.
      simpl in *. congruence.
Qed.

(** C3. After a full exchange (65 bytes written, 64 read), a response
    whose byte 0 is not [op] or whose byte 1 is not [reg] makes the call
    report both pairs, dump the response and exit; no object of the caller
    is touched. Conversely a call that returns has seen both echo bytes
    match. *)
Theorem echo_mismatch_exits (b0 b1 b2 : byte) (buf : option var) (n : Z)
    (p p1 p2 : proc S) (buf_r : list byte)
    (Hw : sys_write H (buf_w b0 b1 b2) p = (Ret 65, p1))
    (Hr : sys_read H 64 p1 = (Ret (64, buf_r), p2)) :
  (nth 0 buf_r x00 <> b0 \/ nth 1 buf_r x00 <> b1 ->
     send_recv_cmd H b0 b1 b2 buf n p
     = (Exit 1,
        extend p2
          [EvStderr (ErrUnexpectedResponse (nth 0 buf_r x00) (nth 1 buf_r x00)
                       b0 b1 b2);
           EvStdout (OutDump (take 64 buf_r))])
     /\ mem p2 = mem p)
  /\ (forall u, fst (send_recv_cmd H b0 b1 b2 buf n p) = Ret u ->
      nth 0 buf_r x00 = b0 /\ nth 1 buf_r x00 = b1).
Proof.
  assert (Hm : mem p2 = mem p).
  { pose proof (sys_read_mem 64 p1) as E1. rewrite Hr in E1.
    pose proof (sys_write_mem (buf_w b0 b1 b2) p) as E0. rewrite Hw in E0.
    simpl in *. congruence. }
  unfold send_recv_cmd, mbind, M_bind. rewrite Hw. simpl. rewrite Hr. simpl.
  split.
  - intros Hne. split; [|exact Hm].
    destruct (Byte.eqb (nth 0 buf_r x00) b0) eqn:E0;
      destruct (Byte.eqb (nth 1 buf_r x00) b1) eqn:E1; simpl;
      unfold exit, extend; simpl; rewrite <- ?app_assoc; try reflexivity.
    apply Byte.byte_dec_bl in E0, E1. tauto.
  - intros u.
    destruct (Byte.eqb (nth 0 buf_r x00) b0) eqn:E0;
      destruct (Byte.eqb (nth 1 buf_r x00) b1) eqn:E1; simpl;
      try discriminate.
    intros _. apply Byte.byte_dec_bl in E0, E1. auto.
Qed.

(** C6. After a successful exchange the object the caller passed holds,
    in its first [min(n, 62)] bytes, the bytes of the response from offset
    2 on; its other bytes and the other objects are as they were. *)
Theorem payload_delivered (b0 b1 b2 : byte) (dst : var) (n : Z)
    (p p1 p2 : proc S) (buf_r : list byte)
    (Hw : sys_write H (buf_w b0 b1 b2) p = (Ret 65, p1))
    (Hr : sys_read H 64 p1 = (Ret (64, buf_r), p2))
    (H0 : nth 0 buf_r x00 = b0) (H1 : nth 1 buf_r x00 = b1)
    (Hn : 0 <= n)
    (Hroom : (Z.to_nat (Z.min n 62) <= length (mem p dst))%nat) :
  let k := Z.to_nat (Z.min n 62) in
  let p' := snd (send_recv_cmd H b0 b1 b2 (Some dst) n p) in
  fst (send_recv_cmd H b0 b1 b2 (Some dst) n p) = Ret tt
  /\ mem p' dst = take k (drop 2 buf_r) ++ drop k (mem p dst)
  /\ length (take k (drop 2 buf_r)) = k
  /\ (forall i : nat, (i < k)%nat -> mem p' dst !! i = buf_r !! (2 + i)%nat)
  /\ (forall i : nat, (k <= i)%nat -> mem p' dst !! i = mem p dst !! i)
  /\ length (mem p' dst) = length (mem p dst)
  /\ (forall y, y <> dst -> mem p' y = mem p y)
  /\ trace p' = trace p2.
Proof.
  intros k p'.
  assert (Hm : mem p2 = mem p).
  { pose proof (sys_read_mem 64 p1) as E1. rewrite Hr in E1.
    pose proof (sys_write_mem (buf_w b0 b1 b2) p) as E0. rewrite Hw in E0.
    simpl in *. congruence. }
  pose proof (sys_read_full _ _ _ Hr) as Hlen.
  assert (Hk : (k <= 62)%nat) by (unfold k; lia).
  assert (Htk : length (take k (drop 2 buf_r)) = k).
  { rewrite length_take, length_drop. lia. }
  assert (E : send_recv_cmd H b0 b1 b2 (Some dst) n p
              = if 0 <? n
                then (Ret tt,
                      {| fd_state := fd_state p2; errno := errno p2;
                         mem := fun y => if var_eqb dst y
                                         then take k (drop 2 buf_r) ++ drop k (mem p2 dst)
                                         else mem p2 y;
                         trace := trace p2 |})
                else (Ret tt, p2)).
  { unfold send_recv_cmd, mbind, M_bind. rewrite Hw. simpl. rewrite Hr. simpl.
    rewrite H0, H1, !byte_eqb_refl. simpl.
    destruct (Z.ltb_spec 0 n) as [Hpos|Hnp]; [|reflexivity].
    change (64 - 2) with 62.
    replace (Z.to_nat (if 62 <? n then 62 else n)) with k
      by (unfold k; destruct (Z.ltb_spec 62 n); f_equal; lia).
    unfold memcpy, mbind, M_bind, load, store, fault. simpl.
    replace (k <=? length (mem p2 dst))%nat with true
      by (symmetry; apply Nat.leb_le; rewrite Hm; exact Hroom).
    replace (k <=? length (drop 2 buf_r))%nat with true
      by (symmetry; apply Nat.leb_le; rewrite length_drop; lia).
    reflexivity. }
  assert (Hdst : mem p' dst = take k (drop 2 buf_r) ++ drop k (mem p dst)).
  { unfold p'. rewrite E. destruct (Z.ltb_spec 0 n) as [Hpos|Hnp]; simpl.
    - rewrite Hm. destruct dst; reflexivity.
    - assert (k = 0%nat) by (unfold k; lia).
      replace k with 0%nat. simpl. rewrite Hm. rewrite drop_0. reflexivity. }
  split; [rewrite E; destruct (0 <? n); reflexivity|].
  split; [exact Hdst|]. split; [exact Htk|].
  split; [|split; [|split; [|split]]].
  - intros i Hi. rewrite Hdst, lookup_app_l by lia.
    rewrite lookup_take_lt by lia. apply lookup_drop.
  - intros i Hi. rewrite Hdst, lookup_app_r by lia.
    rewrite Htk, lookup_drop. f_equal. lia.
  - rewrite Hdst, length_app, Htk, length_drop. lia.
  - intros y Hy. unfold p'. rewrite E.
    destruct (0 <? n); simpl; rewrite ?Hm; [|reflexivity].
    destruct dst, y; simpl; rewrite ?Hm; congruence.
  - unfold p'. rewrite E. destruct (0 <? n); reflexivity.
Qed.

End Framer.

Section FramerWitnesses.
Import Sim.

Lemma transport_error_exits_witness :
  fst (send_recv_cmd short_write x03 x8d x00 (Some Val) 2 opened) = Exit 1
  /\ trace (snd (send_recv_cmd short_write x03 x8d x00 (Some Val) 2 opened))
     = [EvWrite (buf_w x03 x8d x00) 17; EvStderr (ErrWrite 17 65)]
  /\ trace (snd (send_recv_cmd short_read x03 x8d x00 (Some Val) 2 opened))
     = [EvWrite (buf_w x03 x8d x00) 65; EvRead 64 3; EvStderr (ErrRead 3 64);
        EvStdout (OutDump [x03; x8d; x01])].
Proof.
  destruct (transport_error_exits short_write x03 x8d x00 (Some Val) 2
              opened _ 17 eq_refl) as [E _].
  destruct (transport_error_exits short_read x03 x8d x00 (Some Val) 2
              opened _ 65 eq_refl) as [_ F].
  rewrite E by discriminate.
  destruct (F eq_refl 3 [x03; x8d; x01] _ eq_refl) as [F' _]; [discriminate|].
  rewrite F'. repeat split.
Defined.

Lemma echo_mismatch_exits_witness :
  send_recv_cmd (machine LittleEndian desynced) xfe x03 x00 (Some Name) 62 opened
  = (Exit 1,
     {| fd_state := Some (buf_w xfe x03 x00); errno := 0;
        mem := mem opened;
        trace := [EvWrite (buf_w xfe x03 x00) 65; EvRead 64 64;
                  EvStderr (ErrUnexpectedResponse x03 x00 xfe x03 x00);
                  EvStdout (OutDump (x03 :: x00 :: replicate 62 xff))] |}).
Proof.
  destruct (echo_mismatch_exits (machine LittleEndian desynced) xfe x03 x00
              (Some Name) 62 opened _ _ (x03 :: x00 :: replicate 62 xff)
              eq_refl eq_refl) as [E _].
  destruct E as [E _]; [left; discriminate|].
  rewrite E. reflexivity.
Defined.

Lemma payload_delivered_witness :
  mem (snd (send_recv_cmd (machine LittleEndian psu) x03 x8d x00 (Some Val) 2
              opened)) Val
  = [x99; x11].
Proof.
  destruct (payload_delivered (machine LittleEndian psu) x03 x8d x00 Val 2
              opened _ _ (x03 :: x8d :: payload x03 x8d)
              eq_refl eq_refl eq_refl eq_refl ltac:(lia) ltac:(simpl; lia))
    as (_ & E & _).
  rewrite E. reflexivity.
Defined.

End FramerWitnesses.

(** ** Traces and monitors *)

Lemma monitor_app {St : Type} (step : St -> event -> option St) (st : St)
  (l1 l2 : list event) :
  monitor step st (l1 ++ l2)
  = match monitor step st l1 with
    | Some st' => monitor step st' l2
    | None => None
    end.
Proof.
  revert st. induction l1 as [|e l1 IH]; intros st; simpl; [reflexivity|].
  destruct (step st e); [apply IH|reflexivity].
Qed.

Lemma commands_app (l1 l2 : list event) :
  commands (l1 ++ l2) = commands l1 ++ commands l2.
Proof.
  induction l1 as [|e l1 IH]; simpl; [reflexivity|].
  destruct e; simpl; rewrite IH; reflexivity.
Qed.

Lemma gate_after_write (evs : list event) :
  forallb after_write evs = true ->
  monitor gate_step Accepted evs = Some Accepted.
Proof.
  induction evs as [|e evs IH]; simpl; [reflexivity|].
  intros Hq. apply andb_prop in Hq. destruct Hq as [He Hq].
  destruct e as [| | | | |l|]; simpl in He; try discriminate;
    try (apply IH, Hq).
  all: destruct l; simpl in He; try discriminate; apply IH, Hq.
Qed.

Lemma rails_after_write (st : rails) (evs : list event) :
  forallb after_write evs = true ->
  monitor rail_step st evs = Some st.
Proof.
  induction evs as [|e evs IH]; simpl; [reflexivity|].
  intros Hq. apply andb_prop in Hq. destruct Hq as [He Hq].
  destruct e as [| | | | |l|]; simpl in He; try discriminate;
    try (apply IH, Hq).
  all: destruct l; simpl in He; try discriminate; apply IH, Hq.
Qed.

Lemma texts_after_write (evs : list event) :
  forallb after_write evs = true -> forallb text_ok evs = true.
Proof.
  induction evs as [|e evs IH]; simpl; [reflexivity|].
  intros Hq. apply andb_prop in Hq. destruct Hq as [He Hq].
  rewrite (IH Hq), andb_true_r.
  destruct e as [| | | | |l|]; simpl in He; try discriminate; try reflexivity.
  all: destruct l; simpl in He; try discriminate; reflexivity.
Qed.

Lemma commands_after_write (evs : list event) :
  forallb after_write evs = true -> commands evs = [].
Proof.
  induction evs as [|e evs IH]; simpl; [reflexivity|].
  intros Hq. apply andb_prop in Hq. destruct Hq as [He Hq].
  destruct e; try discriminate; apply IH, Hq.
Qed.

Lemma rail_step_write_ret (st : rails) (buf : list byte) (ret ret' : Z) :
  rail_step st (EvWrite buf ret) = rail_step st (EvWrite buf ret').
Proof. reflexivity. Qed.

Lemma var_eqb_eq (x y : var) : var_eqb x y = true <-> x = y.
Proof. destruct x, y; simpl; split; congruence. Qed.

(** A zero byte at index [i] ends the string at or before [i]. *)
Lemma c_string_terminated (bytes : list byte) :
  forall i : nat,
    (i < length bytes)%nat -> nth i bytes x00 = x00 ->
    exists s, c_string bytes = Some s /\ (length s <= i)%nat.
Proof.
  induction bytes as [|b rest IH]; intros i Hi Hz; simpl in *; [lia|].
  destruct (Byte.eqb b x00) eqn:Eb.
  - exists []. split; [reflexivity|simpl; lia].
  - destruct i as [|i].
    + subst b. rewrite byte_eqb_refl in Eb. discriminate.
    + destruct (IH i ltac:(lia) Hz) as (s & Hs & Hl).
      rewrite Hs. exists (b :: s). split; [reflexivity|simpl; lia].
Qed.

(** ** A program logic for the process *)

Section Logic.
Context {S : Type} (H : host S).

Lemma triple_ret {A : Type} (a : A) (P : proc S -> Prop)
    (Q : A -> proc S -> Prop) (X : proc S -> Prop) :
  (forall p, P p -> Q a p) -> triple P (mret a) Q X.
Proof. intros HPQ p HP. simpl. apply HPQ, HP. Qed.

Lemma triple_bind {A B : Type} (m : M S A) (f : A -> M S B)
    (P : proc S -> Prop) (Q : A -> proc S -> Prop) (R : B -> proc S -> Prop)
    (X : proc S -> Prop) :
  triple P m Q X -> (forall a, triple (Q a) (f a) R X) ->
  triple P (m ≫= f) R X.
Proof.
  intros Hm Hf p HP. specialize (Hm p HP).
  unfold mbind, M_bind. destruct (m p) as [[a|c|] p']; try assumption.
  apply Hf, Hm.
Qed.

Lemma triple_weaken {A : Type} (m : M S A)
    (P P' : proc S -> Prop) (Q Q' : A -> proc S -> Prop) (X : proc S -> Prop) :
  (forall p, P' p -> P p) -> (forall a p, Q a p -> Q' a p) ->
  triple P m Q X -> triple P' m Q' X.
Proof.
  intros HP HQ Hm p HP'. specialize (Hm p (HP p HP')).
  destruct (m p) as [[a|c|] p']; auto.
Qed.

Lemma Inv_audited t g r cmds (p : proc S) : Inv t g r cmds p -> audited p.
Proof.
  intros (_ & _ & Hg & Hr & Ht & _). unfold audited, accepts.
  rewrite Hg, Hr. auto.
Qed.

Lemma delivered_sized (buf : option var) (n : Z) (buf_r : list byte)
    (m : var -> list byte) :
  fits buf n -> length buf_r = 64%nat ->
  (forall x, length (m x) = sizeof x) ->
  forall x, length (delivered buf n buf_r m x) = sizeof x.
Proof.
  intros Hfit Hlen Hs x. unfold delivered.
  destruct buf as [dst|]; [|apply Hs].
  destruct (0 <? n); [|apply Hs].
  destruct (var_eqb dst x) eqn:E; [|apply Hs].
  apply var_eqb_eq in E. subst x. destruct Hfit as [Hfit _].
  rewrite length_app, length_take, length_drop, length_drop, Hs. lia.
Qed.

Lemma delivered_terminated (buf : option var) (n : Z) (buf_r : list byte)
    (m : var -> list byte) :
  fits buf n -> length buf_r = 64%nat ->
  (forall x, length (m x) = sizeof x) ->
  nth 62 (m Name) x00 = x00 ->
  nth 62 (delivered buf n buf_r m Name) x00 = x00.
Proof.
  intros Hfit Hlen Hs Hz. unfold delivered.
  destruct buf as [dst|]; [|exact Hz].
  destruct (Z.ltb_spec 0 n) as [Hn|Hn]; [|exact Hz].
  destruct (var_eqb dst Name) eqn:E; [|exact Hz].
  apply var_eqb_eq in E. subst dst. destruct Hfit as [_ Hfit].
  specialize (Hfit eq_refl).
  rewrite nth_lookup in *.
  rewrite lookup_app_r by (rewrite length_take, length_drop; lia).
  rewrite length_take, length_drop, lookup_drop.
  replace (Z.to_nat (n `min` 62) + (62 - Z.to_nat (n `min` 62) `min` (length buf_r - 2)))%nat
    with 62%nat by lia.
  exact Hz.
Qed.

(** One command, under the invariant: the gate must have accepted the
    device, and the rail monitor must allow the command. *)
Lemma send_recv_cmd_inv (b0 b1 b2 : byte) (buf : option var) (n : Z)
    (t : bool) (r r' : rails) (cmds : list command) :
  rail_step r (EvWrite (buf_w b0 b1 b2) 65) = Some r' ->
  fits buf n ->
  triple (Inv t Accepted r cmds)
         (send_recv_cmd H b0 b1 b2 buf n)
         (fun _ => Inv t Accepted r' (cmds ++ [(b0, b1, b2)]))
         audited.
Proof.
  intros Hstep Hfit p (Hs & Ht & Hg & Hr & Htx & Hc).
  destruct (send_recv_cmd_shape H b0 b1 b2 buf n p)
    as (ret & evs & Htr & Hq & Hcase).
  destruct (send_recv_cmd H b0 b1 b2 buf n p) as [res p'] eqn:E.
  simpl in Htr, Hcase.
  assert (Hg' : monitor gate_step Closed (trace p') = Some Accepted).
  { rewrite Htr, monitor_app, Hg. simpl. apply gate_after_write, Hq. }
  assert (Hr' : monitor rail_step no_rail (trace p') = Some r').
  { rewrite Htr, monitor_app, Hr.
    change (monitor rail_step r (EvWrite (buf_w b0 b1 b2) ret :: evs))
      with (match rail_step r (EvWrite (buf_w b0 b1 b2) 65) with
            | Some st' => monitor rail_step st' evs
            | None => None
            end).
    rewrite Hstep. apply rails_after_write, Hq. }
  assert (Htx' : forallb text_ok (trace p') = true).
  { rewrite Htr, forallb_app, Htx. simpl. apply texts_after_write, Hq. }
  assert (Hc' : commands (trace p') = cmds ++ [(b0, b1, b2)]).
  { rewrite Htr, commands_app, Hc. simpl.
    rewrite (commands_after_write evs Hq). reflexivity. }
  destruct res as [u|c|].
  - destruct Hcase as (_ & buf_r & _ & Hlen & _ & _ & Hm).
    repeat split; auto; rewrite Hm.
    + apply delivered_sized; auto.
    + intros Ht'. apply delivered_terminated; auto.
  - unfold audited, accepts. rewrite Hg', Hr'. auto.
  - destruct Hcase as (_ & dst & -> & Hn & Hlt).
    rewrite Hs in Hlt. destruct Hfit as [Hfit _]. lia.
Qed.

(** Events that leave the objects alone, under the invariant. *)
Lemma Inv_events (t : bool) (g g' : gate) (r r' : rails) (cmds : list command)
    (p p' : proc S) (evs : list event) :
  Inv t g r cmds p ->
  mem p' = mem p ->
  trace p' = trace p ++ evs ->
  monitor gate_step g evs = Some g' ->
  monitor rail_step r evs = Some r' ->
  forallb text_ok evs = true ->
  commands evs = [] ->
  Inv t g' r' cmds p'.
Proof.
  intros (Hs & Ht & Hg & Hr & Htx & Hc) Hm Htr Hg' Hr' Htx' Hc'.
  unfold Inv. rewrite Hm, Htr, !monitor_app, Hg, Hr, forallb_app, Htx,
    commands_app, Hc, Hc', app_nil_r, Htx'.
  simpl. tauto.
Qed.

Lemma Inv_forget (t : bool) g r cmds (p : proc S) :
  Inv t g r cmds p -> Inv false g r cmds p.
Proof.
  intros (Hs & Ht & Hrest). split; [exact Hs|]. split; [discriminate|exact Hrest].
Qed.

Lemma stdout_inv (l : stdout_line) (t : bool) (g : gate) (r r' : rails)
    (cmds : list command) (X : proc S -> Prop) :
  rail_step r (EvStdout l) = Some r' ->
  text_ok (EvStdout l) = true ->
  triple (Inv t g r cmds) (stdout l) (fun _ => Inv t g r' cmds) X.
Proof.
  intros Hr Ht p Hinv. simpl.
  apply (Inv_events t g g r r' cmds p _ [EvStdout l] Hinv);
    [reflexivity|reflexivity|reflexivity| | |reflexivity].
  - cbn [monitor]. rewrite Hr. reflexivity.
  - cbn [forallb]. rewrite Ht. reflexivity.
Qed.

Lemma stderr_inv (l : stderr_line) (t : bool) (g : gate) (r : rails)
    (cmds : list command) (X : proc S -> Prop) :
  triple (Inv t g r cmds) (stderr l) (fun _ => Inv t g r cmds) X.
Proof.
  intros p Hinv. simpl.
  apply (Inv_events t g g r r cmds p _ [EvStderr l] Hinv); reflexivity.
Qed.

Lemma skip_inv (P : proc S -> Prop) (X : proc S -> Prop) :
  triple P skip (fun _ => P) X.
Proof. intros p HP. exact HP. Qed.

(** [name[sizeof(name) - 1] = 0] *)
Lemma terminate_name_inv (t : bool) g r cmds (X : proc S -> Prop) :
  triple (Inv t g r cmds)
         (old ← load Name; store Name (<[(sizeof Name - 1)%nat := x00]> old))
         (fun _ => Inv true g r cmds) X.
Proof.
  intros p (Hs & Ht & Hrest). simpl. unfold Inv. simpl.
  split; [|split; [|exact Hrest]].
  - intros x. destruct x; simpl; rewrite ?length_insert; apply Hs.
  - intros _. rewrite nth_lookup, list_lookup_insert_eq; [reflexivity|].
    rewrite (Hs Name). simpl. lia.
Qed.

Lemma print_text_inv (label : string) g r cmds (X : proc S -> Prop) :
  triple (Inv true g r cmds) (print_text label Name)
         (fun _ => Inv true g r cmds) X.
Proof.
  intros p Hinv. pose proof Hinv as (Hs & Ht & _).
  unfold print_text, mbind, M_bind, load.
  destruct (c_string_terminated (mem p Name) 62) as (s & Hc & Hl).
  - rewrite (Hs Name). simpl. lia.
  - apply Ht. reflexivity.
  - rewrite Hc.
    apply (stdout_inv (OutText label s) true g r r cmds X); auto.
    simpl. apply Nat.leb_le, Hl.
Qed.

Lemma print_seconds_inv (label : string) (x : var) t g r cmds
    (X : proc S -> Prop) :
  triple (Inv t g r cmds) (print_seconds H label x)
         (fun _ => Inv t g r cmds) X.
Proof.
  intros p Hinv. unfold print_seconds, mbind, M_bind, load.
  apply (stdout_inv _ t g r r cmds X); auto.
Qed.

Lemma print_std_reg_inv (reg : byte) (fmt : string) (arg : option Z)
    (t : bool) (r r1 r2 : rails) (cmds : list command) :
  rail_step r (EvWrite (buf_w x03 reg x00) 65) = Some r1 ->
  (forall v, rail_step r1 (EvStdout (OutReading fmt arg v)) = Some r2) ->
  triple (Inv t Accepted r cmds) (print_std_reg H reg fmt arg)
         (fun _ => Inv t Accepted r2 (cmds ++ [(x03, reg, x00)])) audited.
Proof.
  intros H1 H2. unfold print_std_reg, read_reg16.
  eapply triple_bind.
  - apply (send_recv_cmd_inv x03 reg x00 (Some Val) 2 t r r1 cmds H1).
    simpl. split; [lia|discriminate].
  - intros ? p Hinv. unfold mbind, M_bind, load.
    apply (stdout_inv _ t Accepted r1 r2 _ audited); auto.
Qed.

(** The body of the rail loop, from any state of the rail monitor. *)
Lemma rail_inv (osel : byte) (t : bool) (r : rails) (cmds : list command) :
  triple (Inv t Accepted r cmds) (rail H osel)
         (fun _ =>
            Inv t Accepted
              {| selected := Some (Z.of_N (Byte.to_N osel)); pending := None |}
              (cmds ++ [(x02, x00, osel); (x03, x8b, x00); (x03, x8c, x00);
                        (x03, x96, x00)]))
         audited.
Proof.
  unfold rail.
  set (n := Z.of_N (Byte.to_N osel)).
  set (sel := {| selected := Some n; pending := None |}).
  set (pen := {| selected := Some n; pending := Some n |}).
  assert (Hprint : forall fmt v,
             rail_step pen (EvStdout (OutReading fmt (Some n) v)) = Some sel).
  { intros fmt v. simpl. rewrite Z.eqb_refl. reflexivity. }
  eapply triple_bind.
  { apply (send_recv_cmd_inv x02 x00 osel None 0 t r sel cmds);
      [reflexivity|exact I]. }
  intros ?. eapply triple_bind.
  { apply (print_std_reg_inv x8b _ (Some n) t sel pen sel); [reflexivity|].
    intros v. apply Hprint. }
  intros ?. eapply triple_bind.
  { apply (print_std_reg_inv x8c _ (Some n) t sel pen sel); [reflexivity|].
    intros v. apply Hprint. }
  intros ?. eapply triple_weaken; [intros p HP; exact HP| |].
  2:{ apply (print_std_reg_inv x96 _ (Some n) t sel pen sel); [reflexivity|].
      intros v. apply Hprint. }
  intros ? p HP. rewrite <- !app_assoc in HP. exact HP.
Qed.

Ltac fits_now :=
  unfold fits; simpl; first [exact I | split; [lia | intros; lia]].

Ltac step_with lem :=
  eapply triple_bind; [ eapply lem | intros ? ].

Ltac step_cmd :=
  eapply triple_bind;
  [ eapply send_recv_cmd_inv; [reflexivity | fits_now] | intros ? ].

Ltac step_reg :=
  eapply triple_bind;
  [ eapply print_std_reg_inv; [reflexivity | intros; reflexivity] | intros ? ].

Lemma main_session_inv (t : bool) (r : rails) (cmds : list command) :
  triple (Inv t Accepted r cmds) (main_session H)
         (fun _ =>
            Inv true Accepted {| selected := Some 0; pending := None |}
              (cmds ++ session_commands))
         audited.
Proof.
  unfold main_session, read_reg, read_reg32, for_each.
  step_with terminate_name_inv.
  step_cmd. step_with print_text_inv.
  step_cmd. step_with print_text_inv.
  step_cmd. step_with print_text_inv.
  step_cmd. step_with print_seconds_inv.
  step_cmd. step_with print_seconds_inv.
  step_reg. step_reg. step_reg. step_reg. step_reg.
  eapply triple_bind.
  { step_with rail_inv. step_with rail_inv. step_with rail_inv.
    apply skip_inv. }
  intros ?.
  eapply triple_weaken; [intros p HP; exact HP| |].
  2:{ eapply send_recv_cmd_inv; [reflexivity|fits_now]. }
  intros ? p HP. cbv beta in HP. rewrite <- !app_assoc in HP. exact HP.
Qed.

Lemma to_int16_range (x : Z) : -32768 <= CInt.to_int16 x < 32768.
Proof.
  unfold CInt.to_int16, CInt.to_signed.
  change (2 ^ 16) with 65536. change (2 ^ (16 - 1)) with 32768.
  destruct (Z.ltb_spec (x mod 65536) 32768); Z.div_mod_to_equations; lia.
Qed.

(** On a signed 16-bit field, comparing the field with a constant below
    [2^15] is comparing its unsigned reading with it. *)
Lemma uint16_eqb_small (v c : Z) :
  -32768 <= v < 32768 -> 0 <= c < 32768 ->
  (CInt.to_uint16 v =? c) = (v =? c).
Proof.
  intros Hv Hc. unfold CInt.to_uint16, CInt.to_unsigned.
  change (2 ^ 16) with 65536.
  destruct (Z.eqb_spec (v mod 65536) c), (Z.eqb_spec v c); try reflexivity;
    Z.div_mod_to_equations; lia.
Qed.

(** The test [try_open_device] makes on the [hidraw_devinfo] fields is the
    allow-list test on the identifiers the device reports. *)
Lemma eligible_found (bus vid pid : Z) :
  eligible (devinfo_of_usb bus vid pid)
  = if negb (vendor (devinfo_of_usb bus vid pid) =? 0x1b1c) then false
    else existsb (fun p => product (devinfo_of_usb bus vid pid) =? p) products.
Proof.
  unfold eligible, devinfo_of_usb, vendor, product.
  pose proof (to_int16_range vid) as Hv. pose proof (to_int16_range pid) as Hp.
  rewrite (uint16_eqb_small _ 0x1b1c Hv) by lia.
  unfold allow_list, products, existsb.
  rewrite !(uint16_eqb_small _ _ Hp) by lia.
  destruct (CInt.to_int16 vid =? 0x1b1c); reflexivity.
Qed.

Lemma triple_pure {A : Type} (phi : Prop) (P : proc S -> Prop) (m : M S A)
    (Q : A -> proc S -> Prop) (X : proc S -> Prop) :
  (phi -> triple P m Q X) -> triple (fun p => phi /\ P p) m Q X.
Proof. intros Hm p [Hphi HP]. apply (Hm Hphi p HP). Qed.

Lemma triple_or {A : Type} (P1 P2 : proc S -> Prop) (m : M S A)
    (Q : A -> proc S -> Prop) (X : proc S -> Prop) :
  triple P1 m Q X -> triple P2 m Q X -> triple (fun p => P1 p \/ P2 p) m Q X.
Proof. intros H1 H2 p [HP|HP]; [apply H1|apply H2]; exact HP. Qed.

Lemma sys_open_inv (name : string) t g r cmds (X : proc S -> Prop) :
  triple (Inv t g r cmds) (sys_open H name)
         (fun fd p =>
            (fd = -1 /\ Inv t Closed r cmds p)
            \/ (fd = 3 /\ Inv t Unchecked r cmds p))
         X.
Proof.
  intros p Hinv. unfold sys_open. destruct (nodes H name) as [e|s0].
  - left. split; [reflexivity|].
    apply (Inv_events t g Closed r r cmds p _ [EvOpen name (-1)] Hinv);
      reflexivity.
  - right. split; [reflexivity|].
    apply (Inv_events t g Unchecked r r cmds p _ [EvOpen name 3] Hinv);
      reflexivity.
Qed.

Lemma found_for_inv (info : hidraw_devinfo) (P X : proc S -> Prop) :
  triple P
    (if negb (vendor info =? 0x1b1c) then mret false
     else mret (existsb (fun p => product info =? p) products))
    (fun found p => found = found_for info /\ P p) X.
Proof.
  unfold found_for.
  destruct (negb (vendor info =? 0x1b1c)); apply triple_ret; auto.
Qed.

Lemma sys_ioctl_rawinfo_inv t g r cmds (X : proc S -> Prop) :
  triple (Inv t g r cmds) (sys_ioctl_rawinfo H)
         (fun ri p =>
            (fst ri = -1 /\ Inv t Rejected r cmds p)
            \/ (fst ri = 0
                /\ Inv t (if found_for (snd ri) then Accepted else Rejected)
                     r cmds p))
         X.
Proof.
  intros p Hinv. unfold sys_ioctl_rawinfo.
  destruct (from_option (hid_rawinfo (driver H)) (IoctlFails 9) (fd_state p))
    as [e|bus vid pid].
  - left. split; [reflexivity|].
    apply (Inv_events t g Rejected r r cmds p _
             [EvIoctl (-1) devinfo_zero] Hinv); reflexivity.
  - right. split; [reflexivity|].
    apply (Inv_events t g _ r r cmds p _
             [EvIoctl 0 (devinfo_of_usb bus vid pid)] Hinv); try reflexivity.
    cbn [monitor gate_step snd]. rewrite eligible_found. reflexivity.
Qed.

Lemma sys_close_inv t g r cmds (X : proc S -> Prop) :
  triple (Inv t g r cmds) sys_close (fun _ => Inv t Closed r cmds) X.
Proof.
  intros p Hinv.
  apply (Inv_events t g Closed r r cmds p _ [EvClose] Hinv); reflexivity.
Qed.

Lemma try_open_device_inv (name : string) (report_errors : bool)
    (t : bool) (g : gate) (r : rails) (cmds : list command) :
  triple (Inv t g r cmds) (try_open_device H name report_errors)
         (fun fd p =>
            (fd = -1 /\ Inv t Closed r cmds p)
            \/ (fd = 3 /\ Inv t Accepted r cmds p))
         audited.
Proof.
  assert (Hreject : forall g0 v w,
             triple (Inv (S := S) t g0 r cmds)
               ((if report_errors
                 then stderr (ErrUnexpectedDevice v w)
                 else skip);; sys_close;; mret (-1))
               (fun fd p =>
                  (fd = -1 /\ Inv t Closed r cmds p)
                  \/ (fd = 3 /\ Inv t Accepted r cmds p))
               audited).
  { intros g0 v w.
    eapply triple_bind;
      [destruct report_errors; [apply stderr_inv|apply skip_inv]|intros ?].
    eapply triple_bind; [apply sys_close_inv|intros ?].
    apply triple_ret. intros p Hp. left. auto. }
  unfold try_open_device.
  eapply triple_bind; [apply sys_open_inv|]. intros fd.
  apply triple_or; apply triple_pure; intros ->.
  - change (-1 =? -1) with true. cbv iota.
    eapply triple_bind;
      [destruct report_errors; [apply stderr_inv|apply skip_inv]|intros ?].
    apply triple_ret. intros p Hp. left. auto.
  - change (3 =? -1) with false. cbv iota.
    eapply triple_bind; [apply sys_ioctl_rawinfo_inv|]. intros [ret info].
    cbn [fst snd]. apply triple_or; apply triple_pure; intros ->.
    + change (negb (-1 =? 0)) with true. cbv iota.
      eapply triple_bind
        with (Q := fun found p => found = false /\ Inv t Rejected r cmds p).
      { eapply triple_bind; [apply stderr_inv|intros ?].
        apply triple_ret. intros p Hp. split; [reflexivity|exact Hp]. }
      intros found. apply triple_pure. intros ->. cbn [negb]. cbv iota.
      apply Hreject.
    + change (negb (0 =? 0)) with false. cbv iota.
      eapply triple_bind; [apply found_for_inv|].
      intros found. apply triple_pure. intros ->.
      destruct (found_for info); cbn [negb]; cbv iota.
      * apply triple_ret. intros p Hp. right. auto.
      * apply Hreject.
Qed.

Lemma snprintf_name_inv (s : string) t g r cmds (X : proc S -> Prop) :
  triple (Inv t g r cmds) (snprintf Name (sizeof Name) s)
         (fun _ => Inv false g r cmds) X.
Proof.
  intros p (Hs & Ht & Hrest). unfold snprintf, mbind, M_bind, load.
  set (out := take (sizeof Name - 1) (list_byte_of_string s) ++ [x00]).
  assert (Hout : (length out <= 63)%nat).
  { unfold out. rewrite length_app, length_take.
    change (sizeof Name) with 63%nat. change (length [x00]) with 1%nat. lia. }
  pose proof (Hs Name) as HN. change (sizeof Name) with 63%nat in HN.
  replace (length out <=? length (mem p Name))%nat with true
    by (symmetry; apply Nat.leb_le; lia).
  simpl. unfold Inv. simpl.
  split; [|split; [discriminate|exact Hrest]].
  intros x. destruct x; simpl; try apply Hs.
  rewrite length_app, length_drop. lia.
Qed.

Lemma get_errno_inv (P X : proc S -> Prop) :
  triple P get_errno (fun _ => P) X.
Proof. intros p HP. exact HP. Qed.

Lemma scan_inv (left : list nat) :
  forall (had : bool) (t : bool) (g : gate) (r : rails) (cmds : list command),
    triple (Inv t g r cmds) (scan H left had)
           (fun res p => opened_or_not r cmds (fst res) p) audited.
Proof.
  induction left as [|i rest IH]; intros had t g r cmds; simpl.
  - apply triple_ret. intros p Hp. left. split; [reflexivity|].
    exists g. apply (Inv_forget t), Hp.
  - eapply triple_bind; [apply snprintf_name_inv|intros ?].
    eapply triple_bind; [apply try_open_device_inv|]. intros fd.
    apply triple_or; apply triple_pure; intros ->.
    + change (negb (-1 =? -1)) with false. cbv iota.
      eapply triple_bind; [apply get_errno_inv|]. intros e. apply IH.
    + change (negb (3 =? -1)) with true. cbv iota.
      apply triple_ret. intros p Hp. right. auto.
Qed.

Lemma main_open_inv (argv : list string) t g r cmds :
  triple (Inv t g r cmds) (main_open H argv)
         (fun res p =>
            match res with
            | None => exists g', Inv false g' r cmds p
            | Some fd => opened_or_not r cmds fd p
            end)
         audited.
Proof.
  unfold main_open.
  destruct (1 <? Z.of_nat (length argv)).
  - destruct (first_is_dash (nth 1 argv EmptyString)
              || negb (Z.of_nat (length argv) =? 2)).
    + eapply triple_bind; [apply stderr_inv|intros ?].
      apply triple_ret. intros p Hp. exists g. apply (Inv_forget t), Hp.
    + eapply triple_bind; [apply try_open_device_inv|]. intros fd.
      apply triple_ret. intros p [[-> Hp]|[-> Hp]].
      * left. split; [reflexivity|]. exists Closed. apply (Inv_forget t), Hp.
      * right. split; [reflexivity|]. apply (Inv_forget t), Hp.
  - eapply triple_bind; [apply scan_inv|]. intros [fd had]. cbn [fst].
    apply triple_or; apply triple_pure; intros ->.
    + change (-1 =? -1) with true. cbv iota.
      intros p [g' Hp]. revert p Hp.
      eapply triple_bind.
      { eapply triple_bind; [apply stderr_inv|intros ?].
        destruct had; [apply stderr_inv|apply skip_inv]. }
      intros ?. apply triple_ret. intros p Hp. left.
      split; [reflexivity|]. exists g'. exact Hp.
    + change (3 =? -1) with false. cbv iota.
      eapply triple_bind; [apply skip_inv|intros ?].
      apply triple_ret. intros p Hp. right. auto.
Qed.

Lemma main_inv (argv : list string) (t : bool) :
  triple (Inv t Closed no_rail []) (main H argv) ended audited.
Proof.
  unfold main.
  eapply triple_bind; [apply main_open_inv|]. intros [fd|].
  - apply triple_or; apply triple_pure; intros ->.
    + change (-1 =? -1) with true. cbv iota.
      apply triple_ret. intros p [g' Hp]. split.
      * apply (Inv_audited _ _ _ _ _ Hp).
      * left. split; [reflexivity|]. apply Hp.
    + change (3 =? -1) with false. cbv iota.
      eapply triple_bind; [apply main_session_inv|intros ?].
      eapply triple_bind; [apply sys_close_inv|intros ?].
      apply triple_ret. intros p Hp. split.
      * apply (Inv_audited _ _ _ _ _ Hp).
      * right. destruct Hp as (Hs & Ht & _ & _ & _ & Hc).
        split; [reflexivity|]. split; [exact Hc|].
        split; [apply (Hs Name)|apply Ht; reflexivity].
  - apply triple_ret. intros p [g' Hp]. split.
    + apply (Inv_audited _ _ _ _ _ Hp).
    + left. split; [reflexivity|]. apply Hp.
Qed.

Lemma start_inv (junk : var -> list byte) :
  Inv false Closed no_rail [] (start (S := S) junk).
Proof.
  unfold Inv, start. simpl. repeat split; try discriminate.
  intros x. apply length_resize.
Qed.

(** Every run of the program, on every host: it ends as [ended] says or
    exits with an audited trace, and it never leaves an object. *)
Lemma run_ends (argv : list string) (junk : var -> list byte) :
  match run H argv junk with
  | (Ret code, p) => ended code p
  | (Exit _, p) => audited p
  | (Fault, _) => False
  end.
Proof. apply (main_inv argv false), start_inv. Qed.

End Logic.

(** ** Register access and host byte order *)

Lemma object_value_16 {S : Type} (H : host S) (b0 b1 : byte) :
  object_value H [b0; b1]
  = match byte_order H with
    | LittleEndian => Z.of_N (Byte.to_N b0) + 256 * Z.of_N (Byte.to_N b1)
    | BigEndian => Z.of_N (Byte.to_N b1) + 256 * Z.of_N (Byte.to_N b0)
    end.
Proof. unfold object_value. destruct (byte_order H); simpl; lia. Qed.

(** C2 (the code departs from it). On a big-endian host [read_reg16] leaves
    the two payload bytes [0x99, 0x11] in the [uint16_t] object in the order
    they arrived, and the object then has the value [0x9911]; the
    little-endian reading [payload[0] + 256 * payload[1]] is [0x1199], which
    is what a little-endian host gets. *)
Theorem read_reg16_big_endian_host :
  let be := Sim.machine BigEndian Sim.psu in
  let le := Sim.machine LittleEndian Sim.psu in
  fst (read_reg16 be x8d Val Sim.opened) = Ret tt
  /\ mem (snd (read_reg16 be x8d Val Sim.opened)) Val = [x99; x11]
  /\ object_value be (mem (snd (read_reg16 be x8d Val Sim.opened)) Val) = 0x9911
  /\ le_value [x99; x11] = 0x1199
  /\ object_value le (mem (snd (read_reg16 le x8d Val Sim.opened)) Val) = 0x1199.
Proof. repeat split. Qed.

(** ** The device gate and the session *)

Lemma uint16_of_int16 (x : Z) :
  CInt.is_uint16 x -> CInt.to_uint16 (CInt.to_int16 x) = x.
Proof.
  unfold CInt.is_uint16, CInt.to_uint16, CInt.to_unsigned, CInt.to_int16,
    CInt.to_signed.
  change (2 ^ 16) with 65536. change (2 ^ (16 - 1)) with 32768.
  intros Hx. destruct (Z.ltb_spec (x mod 65536) 32768);
    Z.div_mod_to_equations; lia.
Qed.

Lemma found_for_allow_list (bus vid pid : Z) :
  CInt.is_uint16 vid -> CInt.is_uint16 pid ->
  found_for (devinfo_of_usb bus vid pid) = true
  <-> vid = 0x1b1c /\ In pid allow_list.
Proof.
  intros Hv Hp. unfold found_for. rewrite <- eligible_found.
  unfold eligible, devinfo_of_usb, vendor, product.
  rewrite !uint16_of_int16 by assumption.
  rewrite andb_true_iff, Z.eqb_eq, existsb_exists.
  split.
  - intros [-> (x & Hin & Hx)]. apply Z.eqb_eq in Hx. subst x. auto.
  - intros [-> Hin]. split; [reflexivity|]. exists pid.
    split; [exact Hin|apply Z.eqb_refl].
Qed.

Section Runs.
Context {S : Type} (H : host S).

(** What [try_open_device] returns for a node that opens and identifies
    itself. *)
Lemma try_open_device_result (name : string) (report_errors : bool)
    (p : proc S) (s0 : S) (bus vid pid : Z) :
  nodes H name = OpenGives s0 ->
  hid_rawinfo (driver H) s0 = IoctlGives bus vid pid ->
  let out := try_open_device H name report_errors p in
  fst out = Ret (if found_for (devinfo_of_usb bus vid pid) then 3 else -1)
  /\ fd_state (snd out)
     = (if found_for (devinfo_of_usb bus vid pid) then Some s0 else None)
  /\ commands (trace (snd out)) = commands (trace p).
Proof.
  intros Hnode Hinfo.
  unfold try_open_device, mbind, M_bind, sys_open. rewrite Hnode.
  change (3 =? -1) with false. cbv iota.
  unfold sys_ioctl_rawinfo. cbn [fd_state from_option]. rewrite Hinfo.
  change (negb (0 =? 0)) with false. cbv iota.
  unfold found_for. cbn [vendor product devinfo_of_usb].
  destruct (negb (CInt.to_int16 vid =? 0x1b1c));
    [|destruct (existsb (fun p0 => CInt.to_int16 pid =? p0) products)];
    destruct report_errors; simpl;
    rewrite !commands_app; simpl; rewrite !app_nil_r; auto.
Qed.

(** C9. A node that opens and reports 16-bit identifiers [vid] and [pid]
    is accepted (its descriptor is returned and stays open) exactly when
    [vid] is [0x1b1c] and [pid] is on the allow-list; otherwise -1 is
    returned and the descriptor is closed. The check itself sends no
    command, and in every run of the program, on every host, [write] and
    [read] are only ever issued on a descriptor whose device has passed the
    check. Vendor [0x1b1c] with product [0x1c0a] is accepted; [0x1b1c] with
    [0xffff] and [0x0000] with [0x1c0a] are rejected. *)
Theorem device_gate (name : string) (report_errors : bool) (p : proc S)
    (s0 : S) (bus vid pid : Z)
    (Hnode : nodes H name = OpenGives s0)
    (Hinfo : hid_rawinfo (driver H) s0 = IoctlGives bus vid pid)
    (Hvid : CInt.is_uint16 vid) (Hpid : CInt.is_uint16 pid) :
  let out := try_open_device H name report_errors p in
  (vid = 0x1b1c /\ In pid allow_list ->
   fst out = Ret 3 /\ fd_state (snd out) = Some s0)
  /\ (~ (vid = 0x1b1c /\ In pid allow_list) ->
      fst out = Ret (-1) /\ fd_state (snd out) = None)
  /\ commands (trace (snd out)) = commands (trace p)
  /\ (forall argv junk,
        accepts gate_step Closed (trace (snd (run H argv junk))) = true)
  /\ fst (try_open_device (Sim.reporting 0x1b1c 0x1c0a) "/dev/hidraw0" true
            (start Sim.no_junk)) = Ret 3
  /\ fst (try_open_device (Sim.reporting 0x1b1c 0xffff) "/dev/hidraw0" true
            (start Sim.no_junk)) = Ret (-1)
  /\ fst (try_open_device (Sim.reporting 0x0000 0x1c0a) "/dev/hidraw0" true
            (start Sim.no_junk)) = Ret (-1)
  /\ commands (trace (snd (run (Sim.reporting 0x1b1c 0xffff)
                             ["corsairmi"; "/dev/hidraw0"]%string Sim.no_junk)))
     = [].
Proof.
  intros out.
  destruct (try_open_device_result name report_errors p s0 bus vid pid
              Hnode Hinfo) as (Hr & Hfd & Hc).
  fold out in Hr, Hfd, Hc.
  pose proof (found_for_allow_list bus vid pid Hvid Hpid) as Hiff.
  split; [|split; [|split; [|split]]].
  - intros Hel. apply Hiff in Hel. rewrite Hr, Hfd, Hel. auto.
  - intros Hnel.
    destruct (found_for (devinfo_of_usb bus vid pid)).
    + exfalso. apply Hnel, Hiff. reflexivity.
    + rewrite Hr, Hfd. auto.
  - exact Hc.
  - intros argv junk. pose proof (run_ends H argv junk) as He.
    destruct (run H argv junk) as [[code|c|] p']; simpl.
    + apply He.
    + apply He.
    + contradiction.
  - repeat split.
Qed.

(** C7. In every run, on every host, a rail-scoped register is read only
    after a rail-select command, and a reading printed for rail [k] was read
    while rail [k] was the rail selected last. A run that returns 0 has sent
    exactly the 23 commands of [session_commands]: for each rail 0, 1, 2 the
    rail-select followed by the reads of [0x8b], [0x8c] and [0x96], and as
    its last command the rail-select with index 0. *)
Theorem rail_selection_order (argv : list string) (junk : var -> list byte) :
  accepts rail_step no_rail (trace (snd (run H argv junk))) = true
  /\ (fst (run H argv junk) = Ret 0 ->
      commands (trace (snd (run H argv junk))) = session_commands)
  /\ drop 10 session_commands
     = concat (map (fun k => [(x02, x00, k); (x03, x8b, x00); (x03, x8c, x00);
                              (x03, x96, x00)])
                 [x00; x01; x02])
       ++ [(x02, x00, x00)]
  /\ forallb (fun c => negb (rail_scoped (snd (fst c)))
                       && negb (Byte.eqb (fst (fst c)) x02))
       (take 10 session_commands) = true
  /\ last session_commands = Some (x02, x00, x00).
Proof.
  pose proof (run_ends H argv junk) as He.
  destruct (run H argv junk) as [[code|c|] p']; simpl fst; simpl snd.
  - destruct He as [(_ & Hr & _) Hcode].
    split; [exact Hr|]. split; [|repeat split].
    intros Hz. inversion Hz; subst code.
    destruct Hcode as [[Hone _]|(_ & Hc & _)]; [discriminate|exact Hc].
  - destruct He as (_ & Hr & _).
    split; [exact Hr|]. split; [discriminate|repeat split].
  - contradiction.
Qed.

(** C10. No run of the program, on any host and from any initial contents
    of its objects, reads or writes outside an object: every string is
    printed from the 63-byte [name] whose last byte is zero, so it has at
    most 62 characters, whatever the device sends. *)
Theorem strings_stay_in_bounds (argv : list string) (junk : var -> list byte) :
  fst (run H argv junk) <> Fault
  /\ forallb text_ok (trace (snd (run H argv junk))) = true
  /\ sizeof Name = 63%nat
  /\ (fst (run H argv junk) = Ret 0 ->
      length (mem (snd (run H argv junk)) Name) = 63%nat
      /\ nth 62 (mem (snd (run H argv junk)) Name) x00 = x00).
Proof.
  pose proof (run_ends H argv junk) as He.
  destruct (run H argv junk) as [[code|c|] p']; simpl fst; simpl snd.
  - destruct He as [(_ & _ & Ht) Hcode].
    split; [discriminate|]. split; [exact Ht|]. split; [reflexivity|].
    intros Hz. inversion Hz; subst code.
    destruct Hcode as [[Hone _]|(_ & _ & Hl & Hn)]; [discriminate|auto].
  - destruct He as (_ & _ & Ht).
    split; [discriminate|]. split; [exact Ht|]. split; [reflexivity|].
    discriminate.
  - contradiction.
Qed.

End Runs.

(** ** The theorems on simulated hosts *)

Section SessionWitnesses.
Import Sim.

Lemma device_gate_witness :
  fst (try_open_device (machine LittleEndian psu) "/dev/hidraw0" true
         (start no_junk)) = Ret 3
  /\ fst (try_open_device (reporting 0x1b1c 0xffff) "/dev/hidraw0" true
            (start no_junk)) = Ret (-1).
Proof.
  assert (H16 : forall x, (0 <=? x) && (x <? 65536) = true -> CInt.is_uint16 x).
  { intros x Hx. apply andb_prop in Hx. unfold CInt.is_uint16. lia. }
  destruct (device_gate (machine LittleEndian psu) "/dev/hidraw0" true
              (start no_junk) [] 3 0x1b1c 0x1c0a eq_refl eq_refl
              (H16 0x1b1c eq_refl) (H16 0x1c0a eq_refl)) as (Hacc & _).
  destruct (device_gate (reporting 0x1b1c 0xffff) "/dev/hidraw0" true
              (start no_junk) [] 3 0x1b1c 0xffff eq_refl eq_refl
              (H16 0x1b1c eq_refl) (H16 0xffff eq_refl)) as (_ & Hrej & _).
  split.
  - apply Hacc. split; [reflexivity|]. simpl. auto.
  - apply Hrej. intros [_ Hin]. simpl in Hin. intuition discriminate.
Defined.

Lemma rail_selection_order_witness :
  fst (run (machine LittleEndian psu) ["corsairmi"%string] no_junk) = Ret 0
  /\ commands (trace (snd (run (machine LittleEndian psu)
                             ["corsairmi"%string] no_junk)))
     = session_commands.
Proof.
  split; [reflexivity|].
  destruct (rail_selection_order (machine LittleEndian psu)
              ["corsairmi"%string] no_junk) as (_ & Hcmds & _).
  apply Hcmds. reflexivity.
Defined.

Lemma strings_stay_in_bounds_witness :
  fst (run (machine LittleEndian unterminated) ["corsairmi"%string] no_junk)
  = Ret 0
  /\ nth 62 (mem (snd (run (machine LittleEndian unterminated)
                         ["corsairmi"%string] no_junk)) Name) x00 = x00.
Proof.
  split; [reflexivity|].
  destruct (strings_stay_in_bounds (machine LittleEndian unterminated)
              ["corsairmi"%string] no_junk) as (_ & _ & _ & Hname).
  apply Hname. reflexivity.
Defined.

(** The monitors do reject: a rail-scoped read with no rail selected, a
    reading printed for another rail than the one selected, a command sent
    to a device that failed the check, and a text of 63 characters. *)
Example rail_monitor_rejects :
  accepts rail_step no_rail [EvWrite (buf_w x03 x8b x00) 65] = false
  /\ accepts rail_step no_rail
       [EvWrite (buf_w x02 x00 x01) 65; EvWrite (buf_w x03 x8b x00) 65;
        EvStdout (OutReading "output%u volts" (Some 2) 0)] = false
  /\ accepts rail_step no_rail
       [EvWrite (buf_w x02 x00 x01) 65; EvWrite (buf_w x03 x8b x00) 65;
        EvWrite (buf_w x02 x00 x02) 65;
        EvStdout (OutReading "output%u volts" (Some 1) 0)] = false.
Proof. repeat split. Qed.

Example gate_monitor_rejects :
  accepts gate_step Closed
    [EvOpen "/dev/hidraw0" 3; EvIoctl 0 (devinfo_of_usb 3 0x1b1c 0xffff);
     EvWrite (buf_w xfe x03 x00) 65] = false
  /\ accepts gate_step Closed
       [EvOpen "/dev/hidraw0" 3; EvWrite (buf_w xfe x03 x00) 65] = false.
Proof. repeat split. Qed.

Example text_monitor_rejects :
  text_ok (EvStdout (OutText "name:" (replicate 63 x41))) = false.
Proof. reflexivity. Qed.

(** The session on the simulated supply: the identity string and the
    temperature of register [0x8d]. *)
Example session_on_psu :
  let tr := trace (snd (run (machine LittleEndian psu)
                          ["corsairmi"%string] no_junk)) in
  In (EvStdout (OutText "name:" (list_byte_of_string "TestPSU"))) tr
  /\ In (EvStdout (OutReading "temp1" None 1636)) tr
  /\ In (EvStdout
           (OutText "vendor:" []))
       tr.
Proof. vm_compute. tauto. Qed.

Example session_on_unterminated :
  In (EvStdout (OutText "name:" (replicate 62 x41)))
    (trace (snd (run (machine LittleEndian unterminated)
                   ["corsairmi"%string] no_junk))).
Proof. vm_compute. tauto. Qed.

End SessionWitnesses.

(** * Further properties of the code *)

(** ** The codec: range, sign and zero *)

Section CodecRange.
Import CInt Codec.

Lemma scale_bounds (p : Z) : -16 <= p <= 15 -> 1 <= 2 ^ (p + 16) <= 2147483648.
Proof.
  intros Hp. split.
  - change 1 with (2 ^ 0). apply Z.pow_le_mono_r; lia.
  - change 2147483648 with (2 ^ 31). apply Z.pow_le_mono_r; lia.
Qed.

(** X1. Every 16-bit word decodes to a value between [-1024 * 2^15] and
    [1023 * 2^15], and a value that is not zero is at least [2^-16] in
    magnitude. *)
Theorem mkv_range (raw : Z) (Hraw : is_uint16 raw) :
  (-33554432 <= mkv raw)%Q /\ (mkv raw <= 33521664)%Q
  /\ (~ (mkv raw == 0)%Q -> (1 # 65536 <= Qabs (mkv raw))%Q).
Proof.
  pose proof (mkv_p_range raw Hraw) as Hp.
  pose proof (mkv_v_range raw Hraw) as Hv.
  pose proof (scale_bounds _ Hp) as Hs.
  rewrite (mkv_scaled raw Hraw).
  set (k := 2 ^ (mkv_p raw + 16)) in *. set (v := mkv_v raw) in *.
  repeat split.
  - unfold Qle. simpl. nia.
  - unfold Qle. simpl. nia.
  - intros Hnz. unfold Qabs, Qle. simpl.
    assert (v <> 0).
    { intros E. apply Hnz. unfold Qeq. simpl. rewrite E. reflexivity. }
    nia.
Qed.

Lemma mkv_range_witness :
  (-33554432 <= mkv 31744)%Q /\ (mkv 64513 <= 33521664)%Q.
Proof.
  assert (H1 : is_uint16 31744) by (unfold is_uint16; lia).
  assert (H2 : is_uint16 64513) by (unfold is_uint16; lia).
  destruct (mkv_range 31744 H1) as (Hlo & _).
  destruct (mkv_range 64513 H2) as (_ & Hhi & _).
  split; assumption.
Defined.

(** X2. The decoded value is zero exactly when the low eleven bits of the
    word are zero, whatever the exponent bits, and negative exactly when
    bit 10 is set. *)
Theorem mkv_sign (raw : Z) (Hraw : is_uint16 raw) :
  ((mkv raw == 0)%Q <-> raw mod 2048 = 0)
  /\ ((mkv raw < 0)%Q <-> 1024 <= raw mod 2048)
  /\ ((0 < mkv raw)%Q <-> 0 < raw mod 2048 < 1024).
Proof.
  pose proof (mkv_p_range raw Hraw) as Hp.
  pose proof (scale_bounds _ Hp) as Hs.
  pose proof (mkv_v_arith raw Hraw) as Hv.
  pose proof (Z.mod_pos_bound raw 2048 ltac:(lia)) as Hm.
  rewrite (mkv_scaled raw Hraw).
  set (k := 2 ^ (mkv_p raw + 16)) in *. set (v := mkv_v raw) in *.
  unfold Qeq, Qlt. simpl.
  destruct (Z.ltb_spec (raw mod 2048) 1024); repeat split; intros; nia.
Qed.

Lemma mkv_sign_witness : (mkv 34816 == 0)%Q /\ (mkv 1024 < 0)%Q.
Proof.
  assert (H1 : is_uint16 34816) by (unfold is_uint16; lia).
  assert (H2 : is_uint16 1024) by (unfold is_uint16; lia).
  destruct (mkv_sign 34816 H1) as (Hz & _).
  destruct (mkv_sign 1024 H2) as (_ & Hn & _).
  split.
  - apply Hz. reflexivity.
  - apply Hn. vm_compute. discriminate.
Defined.

End CodecRange.

(** ** One exchange *)

Section Exchange.
Context {S : Type} (H : host S).

(** X3. A request for more than 62 bytes is a request for 62: the size is
    clamped to the payload of a response before anything is copied. *)
Theorem send_recv_cmd_clamps (b0 b1 b2 : byte) (buf : option var) (n : Z)
    (p : proc S) (Hn : 62 <= n) :
  send_recv_cmd H b0 b1 b2 buf n p = send_recv_cmd H b0 b1 b2 buf 62 p.
Proof.
  unfold send_recv_cmd, mbind, M_bind.
  destruct (sys_write H (buf_w b0 b1 b2) p) as [[ret| |] p1]; try reflexivity.
  destruct (negb (ret =? 65)); [reflexivity|].
  destruct (sys_read H 64 p1) as [[[rret buf_r]| |] p2]; try reflexivity.
  destruct (negb (rret =? 64)); [reflexivity|]. cbv zeta.
  destruct (negb (Byte.eqb (nth 0 buf_r x00) b0)
            || negb (Byte.eqb (nth 1 buf_r x00) b1)); [reflexivity|].
  destruct buf as [dst|]; [|reflexivity].
  replace (0 <? n) with true by (symmetry; apply Z.ltb_lt; lia).
  change (0 <? 62) with true. change (64 - 2) with 62.
  change (62 <? 62) with false. cbv iota.
  destruct (Z.ltb_spec 62 n); [reflexivity|].
  replace n with 62 by lia. reflexivity.
Qed.

(** X4. With no destination ([buf == NULL]) or a size of zero, a call
    changes no object of the caller, however it ends: the payload of the
    response is dropped. *)
Theorem send_recv_cmd_discards (b0 b1 b2 : byte) (buf : option var) (n : Z)
    (p : proc S) (Hnone : buf = None \/ n <= 0) :
  mem (snd (send_recv_cmd H b0 b1 b2 buf n p)) = mem p.
Proof.
  destruct (send_recv_cmd_shape H b0 b1 b2 buf n p)
    as (ret & evs & _ & _ & Hcase).
  destruct (fst (send_recv_cmd H b0 b1 b2 buf n p)) as [u|c|].
  - destruct Hcase as (_ & buf_r & _ & _ & _ & _ & Hm). rewrite Hm.
    unfold delivered. destruct Hnone as [->|Hn]; [reflexivity|].
    destruct buf; [|reflexivity].
    destruct (Z.ltb_spec 0 n); [lia|reflexivity].
  - apply Hcase.
  - apply Hcase.
Qed.

Ltac exchange_case :=
  rewrite <- ?app_assoc; simpl;
  split; [reflexivity|];
  split; [reflexivity|];
  split; [simpl; lia|];
  split; [intros Hr; first [contradiction | (split; reflexivity)]|];
  split;
  [ intros c Hc; first [discriminate | (inversion Hc; split; reflexivity)]
  | intros u Hu; first [discriminate | (split; reflexivity)] ].

(** X5. A call makes one exchange at most: it writes one report; it reads
    only after [write] has returned 65, and then once; a call that does not
    return exits with status 1 and leaves the caller's objects as they
    were. *)
Theorem send_recv_cmd_one_exchange (b0 b1 b2 : byte) (buf : option var)
    (n : Z) (p : proc S) :
  let out := send_recv_cmd H b0 b1 b2 buf n p in
  exists ret evs,
    trace (snd out) = trace p ++ EvWrite (buf_w b0 b1 b2) ret :: evs
    /\ forallb (fun e => negb (is_write e)) evs = true
    /\ (length (List.filter is_read evs) <= 1)%nat
    /\ (ret <> 65 -> evs = [EvStderr (ErrWrite ret 65)] /\ fst out = Exit 1)
    /\ (forall c, fst out = Exit c -> c = 1 /\ mem (snd out) = mem p)
    /\ (forall u, fst out = Ret u -> ret = 65 /\ evs = [EvRead 64 64]).
Proof.
  intros out. unfold out, send_recv_cmd, mbind, M_bind, sys_write, sys_read.
  destruct (fd_state p) as [s|] eqn:Hfd; simpl.
  2:{ exists (-1), [EvStderr (ErrWrite (-1) 65)]. exchange_case. }
  destruct (hid_write (driver H) s (buf_w b0 b1 b2)) as [ret s1].
  exists ret. simpl.
  destruct (Z.eqb_spec ret 65) as [->|Hne]; simpl.
  2:{ exists [EvStderr (ErrWrite ret 65)]. exchange_case. }
  destruct (hid_read (driver H) s1) as [reply s2]. simpl.
  destruct (read_result 64 reply) as [rret buf_r]. simpl.
  destruct (Z.eqb_spec rret 64) as [->|Hne]; simpl.
  2:{ destruct (0 <? rret); simpl; eexists; exchange_case. }
  destruct (Byte.eqb (nth 0 buf_r x00) b0); simpl.
  2:{ eexists; exchange_case. }
  destruct (Byte.eqb (nth 1 buf_r x00) b1); simpl.
  2:{ eexists; exchange_case. }
  exists [EvRead 64 64].
  destruct buf as [dst|]; simpl.
  2:{ exchange_case. }
  destruct (0 <? n); simpl.
  2:{ exchange_case. }
  unfold memcpy, mbind, M_bind, load, store, fault. simpl.
  match goal with |- context [if ?c then _ else _] => destruct c end; simpl;
    exchange_case.
Qed.

End Exchange.

Lemma send_recv_cmd_clamps_witness :
  send_recv_cmd (Sim.machine LittleEndian Sim.psu) xfe x03 x00 (Some Name) 1000
    Sim.opened
  = send_recv_cmd (Sim.machine LittleEndian Sim.psu) xfe x03 x00 (Some Name) 62
      Sim.opened.
Proof.
  apply (send_recv_cmd_clamps (Sim.machine LittleEndian Sim.psu) xfe x03 x00
           (Some Name) 1000 Sim.opened).
  lia.
Defined.

Lemma send_recv_cmd_discards_witness :
  mem (snd (send_recv_cmd (Sim.machine LittleEndian Sim.psu) x02 x00 x01 None 0
              Sim.opened))
  = mem Sim.opened.
Proof.
  apply (send_recv_cmd_discards (Sim.machine LittleEndian Sim.psu) x02 x00 x01
           None 0 Sim.opened).
  left. reflexivity.
Defined.

(** ** Probing a node *)

Section Probing.
Context {S : Type} (H : host S).

(** [try_open_device] in one equation. *)
Lemma try_open_device_eq (name : string) (report_errors : bool) (p : proc S) :
  try_open_device H name report_errors p
  = (Ret (if is_eligible H name then 3 else -1),
     {| fd_state := probe_fd_state H name;
        errno := probe_errno H name (errno p);
        mem := mem p;
        trace := trace p ++ probe_events H name report_errors |}).
Proof.
  unfold try_open_device, mbind, M_bind, sys_open, is_eligible,
    probe_fd_state, probe_errno, probe_events, is_eligible, probe.
  destruct (nodes H name) as [e|s0].
  - destruct report_errors; simpl; rewrite <- ?app_assoc; reflexivity.
  - change (3 =? -1) with false. cbv iota.
    unfold sys_ioctl_rawinfo. cbn [fd_state from_option].
    destruct (hid_rawinfo (driver H) s0) as [e|bus vid pid].
    + destruct report_errors; simpl; rewrite <- ?app_assoc; reflexivity.
    + change (negb (0 =? 0)) with false. cbv iota.
      unfold found_for. cbn [vendor product devinfo_of_usb].
      destruct (negb (CInt.to_int16 vid =? 0x1b1c));
        [|destruct (existsb (fun p0 => CInt.to_int16 pid =? p0) products)];
        destruct report_errors; simpl; rewrite <- ?app_assoc; reflexivity.
Qed.

(** X6. [try_open_device] always returns, with the descriptor of the open
    node (3, the value [open] gives here) or with -1 and no descriptor open:
    a node that is turned down is closed again. It changes no object, and it neither writes to the device nor
    reads from it. *)
Theorem try_open_device_keeps_no_descriptor (name : string)
    (report_errors : bool) (p : proc S) :
  let out := try_open_device H name report_errors p in
  ((fst out = Ret 3 /\ fd_state (snd out) <> None)
   \/ (fst out = Ret (-1) /\ fd_state (snd out) = None))
  /\ mem (snd out) = mem p
  /\ (exists evs, trace (snd out) = trace p ++ evs
                  /\ forallb (fun e => negb (is_write e || is_read e)) evs = true
                  /\ (fst out = Ret (-1) ->
                      last evs = Some EvClose
                      \/ exists l, evs = EvOpen name (-1) :: l)).
Proof.
  intros out. unfold out. rewrite try_open_device_eq. cbn [fst snd fd_state mem trace].
  unfold probe_fd_state, is_eligible, probe_events, probe.
  destruct (nodes H name) as [e|s0].
  - split; [right; auto|]. split; [reflexivity|].
    eexists. split; [reflexivity|]. split; [destruct report_errors; reflexivity|].
    intros _. right. eexists. reflexivity.
  - destruct (hid_rawinfo (driver H) s0) as [e|bus vid pid].
    + split; [right; auto|]. split; [reflexivity|].
      eexists. split; [reflexivity|].
      split; [destruct report_errors; reflexivity|].
      intros _. left. destruct report_errors; reflexivity.
    + destruct (found_for (devinfo_of_usb bus vid pid)).
      * split; [left; split; [reflexivity|discriminate]|]. split; [reflexivity|].
        eexists. split; [reflexivity|]. split; [reflexivity|]. discriminate.
      * split; [right; auto|]. split; [reflexivity|].
        eexists. split; [reflexivity|].
        split; [destruct report_errors; reflexivity|].
        intros _. left. destruct report_errors; reflexivity.
Qed.

(** X7. [report_errors] changes the lines on stderr and nothing else of
    what the call does: the value returned, the descriptor, the objects and
    the system calls are the same. With [report_errors] off the only line
    that can appear is the [perror] of a failed [ioctl], which is printed in
    both modes. ([errno] is left out: the library calls that print may
    change it.) *)
Theorem report_errors_only_changes_stderr (name : string) (p : proc S) :
  let loud := try_open_device H name true p in
  let quiet := try_open_device H name false p in
  fst loud = fst quiet
  /\ fd_state (snd loud) = fd_state (snd quiet)
  /\ mem (snd loud) = mem (snd quiet)
  /\ List.filter (fun e => negb (is_stderr e)) (probe_events H name true)
     = List.filter (fun e => negb (is_stderr e)) (probe_events H name false)
  /\ trace (snd loud) = trace p ++ probe_events H name true
  /\ trace (snd quiet) = trace p ++ probe_events H name false
  /\ (List.filter is_stderr (probe_events H name false)
      = match probe H name with
        | NoInfo _ => [EvStderr ErrIoctl]
        | _ => []
        end)
  /\ (In (EvStderr ErrIoctl) (probe_events H name true)
      <-> exists e, probe H name = NoInfo e).
Proof.
  intros loud quiet. unfold loud, quiet. rewrite !try_open_device_eq.
  cbn [fst snd fd_state errno mem trace].
  repeat (split; [reflexivity|]).
  unfold probe_events.
  destruct (probe H name) as [e|e|info|info]; simpl; repeat split;
    try reflexivity; try (intros [e' He']; discriminate);
    try (intros Hin; repeat (destruct Hin as [Hin|Hin]; try discriminate);
         contradiction).
  - intros _. exists e. reflexivity.
  - intros _. auto.
Qed.

End Probing.

(** ** The session, step by step *)

Lemma view_app (l1 l2 : list event) : view (l1 ++ l2) = view l1 ++ view l2.
Proof. apply omap_app. Qed.

Lemma view_after_write (evs : list event) :
  forallb after_write evs = true -> view evs = [].
Proof.
  induction evs as [|e evs IH]; simpl; [reflexivity|].
  intros Hq. apply andb_prop in Hq. destruct Hq as [He Hq].
  unfold view in *. simpl. rewrite (IH Hq).
  destruct e as [| | | | |l|]; simpl in He; try discriminate; try reflexivity.
  destruct l; simpl in He; try discriminate; reflexivity.
Qed.

Section Showing.
Context {S : Type} (H : host S).

Lemma triple_x_ret {A : Type} (a : A) (P : proc S -> Prop)
    (Q : A -> proc S -> Prop) (X : Z -> proc S -> Prop) :
  (forall p, P p -> Q a p) -> triple_x P (mret a) Q X.
Proof. intros HPQ p HP. simpl. apply HPQ, HP. Qed.

Lemma triple_x_bind {A B : Type} (m : M S A) (f : A -> M S B)
    (P : proc S -> Prop) (Q : A -> proc S -> Prop) (R : B -> proc S -> Prop)
    (X : Z -> proc S -> Prop) :
  triple_x P m Q X -> (forall a, triple_x (Q a) (f a) R X) ->
  triple_x P (m ≫= f) R X.
Proof.
  intros Hm Hf p HP. specialize (Hm p HP).
  unfold mbind, M_bind. destruct (m p) as [[a|c|] p']; try assumption.
  apply Hf, Hm.
Qed.

Lemma triple_x_skip (P : proc S -> Prop) (X : Z -> proc S -> Prop) :
  triple_x P skip (fun _ => P) X.
Proof. intros p HP. exact HP. Qed.

Lemma triple_x_post {A : Type} (m : M S A) (P : proc S -> Prop)
    (Q Q' : A -> proc S -> Prop) (X : Z -> proc S -> Prop) :
  (forall a p, Q a p -> Q' a p) -> triple_x P m Q X -> triple_x P m Q' X.
Proof.
  intros HQ Hm p HP. specialize (Hm p HP).
  destruct (m p) as [[a|c|] p']; auto.
Qed.

Lemma Shown_events (t : bool) (tr0 : list event) (v : list obs)
    (p p' : proc S) (evs : list event) :
  Shown t tr0 v p -> mem p' = mem p -> trace p' = trace p ++ evs ->
  Shown t tr0 (v ++ view evs) p'.
Proof.
  intros (Hs & Ht & evs0 & Htr & Hv) Hm Htr'. unfold Shown. rewrite Hm.
  split; [exact Hs|]. split; [exact Ht|].
  exists (evs0 ++ evs). rewrite Htr', Htr, app_assoc, view_app, Hv. auto.
Qed.

Lemma send_recv_cmd_shown (b0 b1 b2 : byte) (buf : option var) (n : Z)
    (t : bool) (tr0 : list event) (v : list obs)
    (X : Z -> proc S -> Prop) :
  fits buf n ->
  (forall p evs, trace p = tr0 ++ evs ->
                 view evs = v ++ [ObsCmd (b0, b1, b2)] -> X 1 p) ->
  triple_x (Shown t tr0 v) (send_recv_cmd H b0 b1 b2 buf n)
           (fun _ => Shown t tr0 (v ++ [ObsCmd (b0, b1, b2)])) X.
Proof.
  intros Hfit HX p (Hs & Ht & evs0 & Htr0 & Hv).
  destruct (send_recv_cmd_shape H b0 b1 b2 buf n p)
    as (ret & evs & Htr & Hq & Hcase).
  destruct (send_recv_cmd H b0 b1 b2 buf n p) as [res p'] eqn:E.
  simpl in Htr, Hcase.
  assert (Hview : trace p' = tr0 ++ (evs0 ++ EvWrite (buf_w b0 b1 b2) ret :: evs)
                  /\ view (evs0 ++ EvWrite (buf_w b0 b1 b2) ret :: evs)
                     = v ++ [ObsCmd (b0, b1, b2)]).
  { split; [rewrite Htr, Htr0, app_assoc; reflexivity|].
    rewrite view_app, Hv. f_equal.
    change (view (EvWrite (buf_w b0 b1 b2) ret :: evs))
      with (ObsCmd (b0, b1, b2) :: view evs).
    rewrite (view_after_write evs Hq). reflexivity. }
  destruct Hview as [Htr' Hv'].
  destruct res as [u|c|].
  - destruct Hcase as (_ & buf_r & _ & Hlen & _ & _ & Hm).
    split; [|split].
    + rewrite Hm. apply delivered_sized; auto.
    + intros Ht'. rewrite Hm. apply delivered_terminated; auto.
    + eexists. split; [exact Htr'|exact Hv'].
  - destruct Hcase as [-> _]. apply (HX p' _ Htr' Hv').
  - destruct Hcase as (_ & dst & -> & Hn & Hlt).
    rewrite Hs in Hlt. destruct Hfit as [Hfit _]. lia.
Qed.

Lemma stdout_shown (l : stdout_line) (t : bool) (tr0 : list event)
    (v : list obs) (X : Z -> proc S -> Prop) :
  triple_x (Shown t tr0 v) (stdout l)
           (fun _ => Shown t tr0 (v ++ view [EvStdout l])) X.
Proof.
  intros p Hp. simpl.
  apply (Shown_events t tr0 v p _ [EvStdout l] Hp); reflexivity.
Qed.

Lemma terminate_name_shown (t : bool) tr0 v (X : Z -> proc S -> Prop) :
  triple_x (Shown t tr0 v)
           (old ← load Name; store Name (<[(sizeof Name - 1)%nat := x00]> old))
           (fun _ => Shown true tr0 v) X.
Proof.
  intros p (Hs & Ht & Hrest). simpl. unfold Shown. simpl.
  split; [|split; [|exact Hrest]].
  - intros x. destruct x; simpl; rewrite ?length_insert; apply Hs.
  - intros _. rewrite nth_lookup, list_lookup_insert_eq; [reflexivity|].
    rewrite (Hs Name). simpl. lia.
Qed.

Lemma print_text_shown (label : string) tr0 v (X : Z -> proc S -> Prop) :
  triple_x (Shown true tr0 v) (print_text label Name)
           (fun _ => Shown true tr0 (v ++ [ObsLine (LText label)])) X.
Proof.
  intros p Hp. pose proof Hp as (Hs & Ht & _).
  unfold print_text, mbind, M_bind, load.
  destruct (c_string_terminated (mem p Name) 62) as (s & Hc & Hl).
  - rewrite (Hs Name). simpl. lia.
  - apply Ht. reflexivity.
  - rewrite Hc. apply (stdout_shown (OutText label s) true tr0 v X p Hp).
Qed.

Lemma print_seconds_shown (label : string) (x : var) t tr0 v
    (X : Z -> proc S -> Prop) :
  triple_x (Shown t tr0 v) (print_seconds H label x)
           (fun _ => Shown t tr0 (v ++ [ObsLine (LSeconds label)])) X.
Proof.
  intros p Hp. unfold print_seconds, mbind, M_bind, load.
  exact (stdout_shown (OutSeconds label _ _ _) t tr0 v X p Hp).
Qed.

Lemma print_std_reg_shown (reg : byte) (fmt : string) (arg : option Z)
    (t : bool) tr0 v (X : Z -> proc S -> Prop) :
  (forall p evs, trace p = tr0 ++ evs ->
                 view evs = v ++ [ObsCmd (x03, reg, x00)] -> X 1 p) ->
  triple_x (Shown t tr0 v) (print_std_reg H reg fmt arg)
           (fun _ => Shown t tr0 ((v ++ [ObsCmd (x03, reg, x00)])
                                  ++ [ObsLine (LReading fmt arg)])) X.
Proof.
  intros HX. unfold print_std_reg, read_reg16.
  eapply triple_x_bind.
  - apply (send_recv_cmd_shown x03 reg x00 (Some Val) 2 t tr0 v X); [|exact HX].
    simpl. split; [lia|discriminate].
  - intros ? p Hp. unfold mbind, M_bind, load.
    exact (stdout_shown (OutReading fmt arg _) t tr0 _ X p Hp).
Qed.

End Showing.

Section SessionShown.
Context {S : Type} (H : host S).

Ltac fits_here :=
  unfold fits; simpl; first [exact I | split; [lia | intros; lia]].

Ltac stopped_here :=
  let p := fresh "p" in
  let evs := fresh "evs" in
  let Htr := fresh "Htr" in
  let Hv := fresh "Hv" in
  intros p evs Htr Hv; split; [reflexivity|];
  match type of Hv with
  | view _ = ?l =>
      exists evs, (length l); eexists;
      split; [exact Htr|];
      split; [rewrite Hv; reflexivity|];
      split; [apply Nat.leb_le; reflexivity|reflexivity]
  end.

Ltac show_with lem :=
  eapply triple_x_bind; [ eapply lem | intros ? ].

Ltac show_cmd :=
  eapply triple_x_bind;
  [ eapply send_recv_cmd_shown; [fits_here | stopped_here] | intros ? ].

Ltac show_reg :=
  eapply triple_x_bind;
  [ eapply print_std_reg_shown; stopped_here | intros ? ].

(** The session shows [session_view] and returns, or stops at a command
    and exits with status 1. *)
Lemma main_session_shown (t : bool) (tr0 : list event) :
  triple_x (Shown t tr0 []) (main_session H)
           (fun _ => Shown true tr0 session_view) (Stopped tr0).
Proof.
  unfold main_session, read_reg, read_reg32, for_each, rail.
  show_with (@terminate_name_shown S).
  show_cmd. show_with (@print_text_shown S).
  show_cmd. show_with (@print_text_shown S).
  show_cmd. show_with (@print_text_shown S).
  show_cmd. show_with (print_seconds_shown H).
  show_cmd. show_with (print_seconds_shown H).
  show_reg. show_reg. show_reg. show_reg. show_reg.
  eapply triple_x_bind.
  { eapply triple_x_bind.
    { show_cmd. show_reg. show_reg.
      eapply print_std_reg_shown; stopped_here. }
    intros ?. eapply triple_x_bind.
    { show_cmd. show_reg. show_reg.
      eapply print_std_reg_shown; stopped_here. }
    intros ?. eapply triple_x_bind.
    { show_cmd. show_reg. show_reg.
      eapply print_std_reg_shown; stopped_here. }
    intros ?. apply triple_x_skip. }
  intros ?. eapply triple_x_post.
  2:{ eapply send_recv_cmd_shown; [fits_here|stopped_here]. }
  intros ? q Hq. exact Hq.
Qed.

End SessionShown.

(** ** Looking for the device *)

Section Finding.
Context {S : Type} (H : host S).

Lemma snprintf_name_keeps (s : string) (p : proc S) :
  (forall x, length (mem p x) = sizeof x) ->
  exists p',
    snprintf Name (sizeof Name) s p = (Ret tt, p')
    /\ trace p' = trace p /\ errno p' = errno p
    /\ (forall x, length (mem p' x) = sizeof x).
Proof.
  intros Hs. unfold snprintf, mbind, M_bind, load.
  set (out := take (sizeof Name - 1) (list_byte_of_string s) ++ [x00]).
  assert (Hout : (length out <= 63)%nat).
  { unfold out. rewrite length_app, length_take.
    change (sizeof Name) with 63%nat. change (length [x00]) with 1%nat. lia. }
  pose proof (Hs Name) as HN. change (sizeof Name) with 63%nat in HN.
  replace (length out <=? length (mem p Name))%nat with true
    by (symmetry; apply Nat.leb_le; lia).
  eexists. split; [reflexivity|]. simpl. repeat split.
  intros x. destruct x; simpl; try apply Hs.
  rewrite length_app, length_drop. lia.
Qed.

Lemma scan_spec (left : list nat) :
  forall (had : bool) (p : proc S),
    (forall x, length (mem p x) = sizeof x) ->
    exists p',
      scan H left had p
      = (Ret (if scan_finds H left then 3 else -1,
              scan_had H left had (errno p)), p')
      /\ trace p' = trace p ++ scan_events H left
      /\ (forall x, length (mem p' x) = sizeof x).
Proof.
  induction left as [|i rest IH]; intros had p Hs.
  - exists p. simpl. rewrite app_nil_r. auto.
  - destruct (snprintf_name_keeps (hidraw_path i) p Hs)
      as (p1 & E1 & Ht1 & He1 & Hs1).
    cbn [scan]. unfold mbind, M_bind at 1. rewrite E1.
    unfold mbind, M_bind at 1. rewrite try_open_device_eq.
    cbn [scan_finds existsb scan_events scan_had].
    destruct (is_eligible H (hidraw_path i)) eqn:El.
    + change (negb (3 =? -1)) with true. cbv iota.
      eexists. split; [reflexivity|]. cbn [trace mem].
      rewrite Ht1, app_nil_r. auto.
    + change (negb (-1 =? -1)) with false. cbv iota.
      unfold mbind, M_bind at 1. unfold get_errno at 1. cbn [errno].
      match goal with
      | |- context [scan H rest ?h ?q] =>
          destruct (IH h q) as (p' & E & Ht & Hs')
      end.
      { exact Hs1. }
      exists p'. rewrite E. cbn [errno trace] in *. rewrite He1.
      split; [reflexivity|]. split; [|exact Hs'].
      rewrite Ht, Ht1, app_assoc. reflexivity.
Qed.

Lemma main_open_spec (argv : list string) (p : proc S) :
  (forall x, length (mem p x) = sizeof x) -> errno p = 0 ->
  exists p',
    main_open H argv p
    = (Ret (if wants_usage argv then None
            else Some (if finds_device H argv then 3 else -1)), p')
    /\ trace p' = trace p ++ open_events H argv
    /\ (forall x, length (mem p' x) = sizeof x).
Proof.
  intros Hs He. unfold main_open, wants_usage, finds_device, open_events,
    wants_usage.
  destruct (1 <? Z.of_nat (length argv)); cbn [andb].
  - destruct (first_is_dash (nth 1 argv EmptyString)
              || negb (Z.of_nat (length argv) =? 2)); cbn [negb andb].
    + eexists. split; [reflexivity|]. simpl. auto.
    + unfold mbind, M_bind. rewrite try_open_device_eq.
      eexists. split; [reflexivity|]. simpl. auto.
  - destruct (scan_spec (seq 0 16) false p Hs) as (p1 & E & Ht & Hs1).
    unfold mbind, M_bind at 1. rewrite E, He.
    destruct (scan_finds H (seq 0 16)).
    + change (3 =? -1) with false. cbv iota.
      eexists. split; [reflexivity|]. simpl. rewrite Ht, app_nil_r. auto.
    + change (-1 =? -1) with true. cbv iota.
      destruct (scan_had H (seq 0 16) false 0); cbn [stderr log mbind M_bind];
        eexists; (split; [reflexivity|]); cbn [trace mem];
        rewrite Ht, <- !app_assoc; (split; [reflexivity|exact Hs1]).
Qed.

(** Every run: either no device is found and [main] returns 1 after the
    events of the search, or the session follows the search and runs to
    its end (then the descriptor is closed and 0 returned) or stops at a
    command with exit status 1. *)
Lemma run_shown (argv : list string) (junk : var -> list byte) :
  let out := run H argv junk in
  if finds_device H argv then
    exists evs,
      trace (snd out) = open_events H argv ++ evs
      /\ ((fst out = Ret 0 /\ fd_state (snd out) = None
           /\ exists evs', evs = evs' ++ [EvClose] /\ view evs' = session_view)
          \/ (fst out = Exit 1
              /\ exists n cmd,
                   view evs = take n session_view
                   /\ (n <= length session_view)%nat
                   /\ last (take n session_view) = Some (ObsCmd cmd)))
  else fst out = Ret 1 /\ trace (snd out) = open_events H argv.
Proof.
  intros out.
  destruct (main_open_spec argv (start junk)) as (p1 & E & Ht & Hs).
  { intros x. apply length_resize. }
  { reflexivity. }
  cbn [trace start app] in Ht.
  assert (Eo : out
               = match (if wants_usage argv then None
                        else Some (if finds_device H argv then 3 else -1)) with
                 | Some fd =>
                     if fd =? -1 then mret 1
                     else main_session H;; sys_close;; mret 0
                 | None => mret 1
                 end p1).
  { unfold out, run, main. unfold mbind at 1. unfold M_bind at 1.
    rewrite E. reflexivity. }
  clearbody out. subst out.
  destruct (wants_usage argv) eqn:Hu.
  - assert (Hf : finds_device H argv = false).
    { unfold finds_device. rewrite Hu.
      unfold wants_usage in Hu. apply andb_prop in Hu. destruct Hu as [-> _].
      reflexivity. }
    rewrite Hf. simpl. auto.
  - destruct (finds_device H argv).
    + change (3 =? -1) with false. cbv iota.
      assert (Hp1 : Shown false (trace p1) [] p1).
      { split; [exact Hs|]. split; [discriminate|].
        exists []. rewrite app_nil_r. auto. }
      pose proof (main_session_shown H false (trace p1) p1 Hp1) as Hsess.
      assert (Es : (main_session H;; sys_close;; mret 0) p1
                   = match main_session H p1 with
                     | (Ret _, p2) =>
                         (Ret 0, {| fd_state := None; errno := errno p2;
                                    mem := mem p2;
                                    trace := trace p2 ++ [EvClose] |})
                     | (Exit c, p2) => (Exit c, p2)
                     | (Fault, p2) => (Fault, p2)
                     end).
      { unfold mbind, M_bind.
        destruct (main_session H p1) as [[u|c|] p2]; reflexivity. }
      rewrite Es. clear Es.
      destruct (main_session H p1) as [[u|c|] p2]; [| |contradiction].
      * destruct Hsess as (_ & _ & evs & Htr & Hv).
        simpl. exists (evs ++ [EvClose]).
        rewrite Htr, Ht, <- app_assoc. split; [reflexivity|].
        left. split; [reflexivity|]. split; [reflexivity|].
        exists evs. auto.
      * destruct Hsess as (-> & evs & n & cmd & Htr & Hv & Hn & Hl).
        simpl. exists evs. rewrite Htr, Ht. split; [reflexivity|].
        right. split; [reflexivity|]. exists n, cmd. auto.
    + change (-1 =? -1) with true. cbv iota. simpl. auto.
Qed.

End Finding.

(** ** Projections of a view *)

Lemma omap_omap {A B C : Type} (f : A -> option B) (g : B -> option C)
    (h : A -> option C) (l : list A) :
  (forall a, h a = match f a with Some b => g b | None => None end) ->
  omap h l = omap g (omap f l).
Proof.
  intros Hh. induction l as [|a l IH]; [reflexivity|].
  change (omap h (a :: l))
    with (match h a with Some y => y :: omap h l | None => omap h l end).
  change (omap f (a :: l))
    with (match f a with Some y => y :: omap f l | None => omap f l end).
  rewrite Hh, IH. destruct (f a) as [b|]; [|reflexivity].
  change (omap g (b :: omap f l))
    with (match g b with
          | Some y => y :: omap g (omap f l)
          | None => omap g (omap f l)
          end).
  reflexivity.
Qed.

Lemma commands_omap (tr : list event) :
  commands tr
  = omap (fun e => match e with
                   | EvWrite buf _ => Some (command_of buf)
                   | _ => None
                   end) tr.
Proof.
  induction tr as [|e tr IH]; [reflexivity|].
  destruct e; simpl; rewrite IH; reflexivity.
Qed.

Lemma commands_view (tr : list event) : commands tr = commands_of (view tr).
Proof.
  rewrite commands_omap. apply omap_omap.
  intros [| | | | |l|]; try reflexivity; destruct l; reflexivity.
Qed.

Lemma opens_view (tr : list event) : opens tr = opens_of (view tr).
Proof.
  apply omap_omap.
  intros [| | | | |l|]; try reflexivity; destruct l; reflexivity.
Qed.

Lemma lines_view (tr : list event) : lines tr = lines_of (view tr).
Proof.
  apply omap_omap.
  intros [| | | | |l|]; try reflexivity; destruct l; reflexivity.
Qed.

Lemma opens_app (l1 l2 : list event) : opens (l1 ++ l2) = opens l1 ++ opens l2.
Proof. apply omap_app. Qed.

Lemma omap_take_none {A B : Type} (f : A -> option B) (l : list A) (n : nat) :
  omap f l = [] -> omap f (take n l) = [].
Proof.
  revert n. induction l as [|a l IH]; intros n Hl; destruct n; simpl in *;
    try reflexivity.
  destruct (f a); [discriminate|]. apply IH, Hl.
Qed.

Lemma omap_take_prefix {A B : Type} (f : A -> option B) (l : list A) :
  forall n, omap f (take n l) = take (length (omap f (take n l))) (omap f l).
Proof.
  induction l as [|a l IH]; intros n; destruct n as [|n]; try reflexivity.
  change (take (S n) (a :: l)) with (a :: take n l).
  change (omap f (a :: take n l))
    with (match f a with
          | Some y => y :: omap f (take n l)
          | None => omap f (take n l)
          end).
  change (omap f (a :: l))
    with (match f a with Some y => y :: omap f l | None => omap f l end).
  destruct (f a) as [b|].
  - simpl length. simpl take. f_equal. apply IH.
  - apply IH.
Qed.

(** The commands and the lines of a beginning of [session_view] are
    beginnings of those of the whole. *)
Lemma session_view_take (n : nat) :
  commands_of (take n session_view)
  = take (length (commands_of (take n session_view))) session_commands
  /\ lines_of (take n session_view)
     = take (length (lines_of (take n session_view))) (lines_of session_view)
  /\ opens_of (take n session_view) = [].
Proof.
  split; [|split].
  - change session_commands with (commands_of session_view).
    unfold commands_of. apply omap_take_prefix.
  - unfold lines_of. apply omap_take_prefix.
  - apply omap_take_none. reflexivity.
Qed.

(** ** The search and the session in a run *)

Section RunFacts.
Context {S : Type} (H : host S).

Lemma probe_events_view (name : string) (report_errors : bool) :
  opens (probe_events H name report_errors) = [name]
  /\ commands (probe_events H name report_errors) = []
  /\ lines (probe_events H name report_errors) = [].
Proof.
  unfold probe_events.
  destruct (probe H name); destruct report_errors; repeat split.
Qed.

Lemma lines_app (l1 l2 : list event) : lines (l1 ++ l2) = lines l1 ++ lines l2.
Proof. apply omap_app. Qed.

Lemma scan_events_quiet (left : list nat) :
  commands (scan_events H left) = [] /\ lines (scan_events H left) = [].
Proof.
  induction left as [|i rest [IHc IHl]]; [split; reflexivity|].
  cbn [scan_events].
  destruct (probe_events_view (hidraw_path i) false) as (_ & Hc & Hl).
  rewrite commands_app, lines_app, Hc, Hl.
  destruct (is_eligible H (hidraw_path i)); auto.
Qed.

Lemma open_events_quiet (argv : list string) :
  commands (open_events H argv) = [] /\ lines (open_events H argv) = [].
Proof.
  unfold open_events.
  destruct (1 <? Z.of_nat (length argv)).
  - destruct (wants_usage argv); [split; reflexivity|].
    destruct (probe_events_view (nth 1 argv EmptyString) true) as (_ & Hc & Hl).
    auto.
  - destruct (scan_events_quiet (seq 0 16)) as [Hc Hl].
    rewrite commands_app, lines_app, Hc, Hl.
    destruct (scan_finds H (seq 0 16)); [split; reflexivity|].
    destruct (scan_had H (seq 0 16) false 0); split; reflexivity.
Qed.

Lemma scan_none (left : list nat) :
  (forall j, In j left -> is_eligible H (hidraw_path j) = false) ->
  opens (scan_events H left) = map hidraw_path left
  /\ scan_finds H left = false.
Proof.
  induction left as [|i rest IH]; intros Hno; [split; reflexivity|].
  cbn [scan_events scan_finds existsb map].
  rewrite (Hno i (or_introl eq_refl)).
  destruct (probe_events_view (hidraw_path i) false) as (Ho & _).
  destruct IH as [IHo IHf].
  { intros j Hj. apply Hno. right. exact Hj. }
  rewrite opens_app, Ho, IHo. split; [reflexivity|]. exact IHf.
Qed.

Lemma scan_first (pre : list nat) (i : nat) (rest : list nat) :
  (forall j, In j pre -> is_eligible H (hidraw_path j) = false) ->
  is_eligible H (hidraw_path i) = true ->
  opens (scan_events H (pre ++ i :: rest)) = map hidraw_path (pre ++ [i])
  /\ scan_finds H (pre ++ i :: rest) = true.
Proof.
  induction pre as [|k pre IH]; intros Hno Hel.
  - cbn [app scan_events scan_finds existsb map]. rewrite Hel.
    destruct (probe_events_view (hidraw_path i) false) as (Ho & _).
    rewrite app_nil_r, Ho. auto.
  - cbn [app scan_events scan_finds existsb map].
    rewrite (Hno k (or_introl eq_refl)).
    destruct (probe_events_view (hidraw_path k) false) as (Ho & _).
    destruct IH as [IHo IHf]; [|exact Hel|].
    { intros j Hj. apply Hno. right. exact Hj. }
    rewrite opens_app, Ho, IHo. split; [reflexivity|]. exact IHf.
Qed.

Lemma scan_had_true (left : list nat) :
  forall (had : bool) (e : Z),
    (forall j, In j left -> is_eligible H (hidraw_path j) = false) ->
    (had = true
     \/ exists i, In i left /\ nodes H (hidraw_path i) = OpenFails EACCES) ->
    scan_had H left had e = true.
Proof.
  induction left as [|k rest IH]; intros had e Hno Hwhy.
  - destruct Hwhy as [->|(i & [] & _)]. reflexivity.
  - cbn [scan_had]. rewrite (Hno k (or_introl eq_refl)).
    apply IH.
    + intros j Hj. apply Hno. right. exact Hj.
    + destruct Hwhy as [->|(i & [<-|Hin] & Hi)].
      * left. destruct (_ =? _); reflexivity.
      * left. unfold probe_errno, probe. rewrite Hi. reflexivity.
      * right. exists i. auto.
Qed.

Lemma auto_mode (argv : list string) :
  (length argv <= 1)%nat -> (1 <? Z.of_nat (length argv)) = false.
Proof. intros Hl. apply Z.ltb_ge. lia. Qed.

(** X8. With an argument that starts with a dash, or with more than one
    argument, [main] prints the usage text and returns 1 without opening
    anything. *)
Theorem usage_opens_nothing (argv : list string) (junk : var -> list byte)
    (Hargc : (2 <= length argv)%nat)
    (Hbad : first_is_dash (nth 1 argv EmptyString) = true
            \/ length argv <> 2%nat) :
  fst (run H argv junk) = Ret 1
  /\ trace (snd (run H argv junk))
     = [EvStderr (ErrUsage (nth 0 argv EmptyString))].
Proof.
  assert (Hu : wants_usage argv = true).
  { unfold wants_usage. apply andb_true_intro. split.
    - apply Z.ltb_lt. lia.
    - destruct Hbad as [->|Hne]; [reflexivity|].
      apply orb_true_intro. right. apply negb_true_iff, Z.eqb_neq. lia. }
  pose proof (run_shown H argv junk) as Hrun. cbv zeta in Hrun.
  unfold finds_device, open_events in Hrun. rewrite Hu in Hrun.
  replace (1 <? Z.of_nat (length argv)) with true in Hrun
    by (symmetry; apply Z.ltb_lt; lia).
  exact Hrun.
Qed.

(** X9. Without an argument [main] probes [/dev/hidraw0], [/dev/hidraw1],
    ... in this order and stops at the first node that passes the gate: when
    node [i] is the first eligible one, exactly the nodes 0 to [i] are
    opened and the session starts with the identity command. *)
Theorem first_eligible_node_is_used (argv : list string)
    (junk : var -> list byte) (i : nat)
    (Hauto : (length argv <= 1)%nat) (Hi : (i < 16)%nat)
    (Hel : is_eligible H (hidraw_path i) = true)
    (Hbefore : forall j, (j < i)%nat -> is_eligible H (hidraw_path j) = false) :
  opens (trace (snd (run H argv junk))) = map hidraw_path (seq 0 (Datatypes.S i))
  /\ exists rest,
       commands (trace (snd (run H argv junk))) = (xfe, x03, x00) :: rest.
Proof.
  assert (Hseq : seq 0 16 = seq 0 i ++ i :: seq (Datatypes.S i) (15 - i)).
  { replace 16%nat with (i + Datatypes.S (15 - i))%nat at 1 by lia.
    rewrite seq_app. reflexivity. }
  destruct (scan_first (seq 0 i) i (seq (Datatypes.S i) (15 - i))) as [Ho Hf].
  { intros j Hj. apply in_seq in Hj. apply Hbefore. lia. }
  { exact Hel. }
  rewrite <- Hseq in Ho, Hf.
  pose proof (run_shown H argv junk) as Hrun. cbv zeta in Hrun.
  unfold finds_device, open_events in Hrun.
  rewrite (auto_mode argv Hauto), Hf in Hrun.
  destruct Hrun as (evs & Htr & Hcase). rewrite app_nil_r in Htr.
  destruct (scan_events_quiet (seq 0 16)) as [Hc _].
  rewrite Htr, opens_app, commands_app, Ho, Hc.
  replace (seq 0 i ++ [i]) with (seq 0 (Datatypes.S i))
    by (rewrite seq_S; reflexivity).
  destruct Hcase as [(_ & _ & evs' & -> & Hv)|(_ & n & cmd & Hv & Hn & Hl)].
  - rewrite opens_app, commands_app, opens_view, commands_view, Hv.
    split; [apply app_nil_r|]. eexists. reflexivity.
  - rewrite opens_view, commands_view, Hv.
    destruct (session_view_take n) as (_ & _ & Hop). rewrite Hop, app_nil_r.
    split; [reflexivity|].
    destruct n as [|n]; [discriminate|]. simpl. eexists. reflexivity.
Qed.

(** X10. Without an argument and with no eligible node, all sixteen nodes
    are probed in order, no command is sent to any of them, ["No compatible
    devices found."] is printed and [main] returns 1. *)
Theorem no_eligible_node (argv : list string) (junk : var -> list byte)
    (Hauto : (length argv <= 1)%nat)
    (Hnone : forall j, (j < 16)%nat -> is_eligible H (hidraw_path j) = false) :
  fst (run H argv junk) = Ret 1
  /\ opens (trace (snd (run H argv junk))) = map hidraw_path (seq 0 16)
  /\ commands (trace (snd (run H argv junk))) = []
  /\ In (EvStderr ErrNoDevices) (trace (snd (run H argv junk))).
Proof.
  destruct (scan_none (seq 0 16)) as [Ho Hf].
  { intros j Hj. apply in_seq in Hj. apply Hnone. lia. }
  pose proof (run_shown H argv junk) as Hrun. cbv zeta in Hrun.
  pose proof (open_events_quiet argv) as [Hc _].
  unfold finds_device, open_events in Hrun, Hc.
  rewrite (auto_mode argv Hauto), Hf in Hrun, Hc.
  destruct Hrun as [Hr Htr]. rewrite Htr.
  split; [exact Hr|]. split; [|split; [exact Hc|]].
  - rewrite opens_app, Ho.
    destruct (scan_had H (seq 0 16) false 0); apply app_nil_r.
  - apply in_or_app. right. left. reflexivity.
Qed.

(** X11. With a path as its only argument [main] opens that node and no
    other; when the node does not pass the gate [main] returns 1 with the
    reasons on stderr. *)
Theorem path_argument_only (prog path : string) (junk : var -> list byte)
    (Hpath : first_is_dash path = false) :
  opens (trace (snd (run H [prog; path] junk))) = [path]
  /\ (is_eligible H path = false ->
      fst (run H [prog; path] junk) = Ret 1
      /\ trace (snd (run H [prog; path] junk)) = probe_events H path true).
Proof.
  pose proof (run_shown H [prog; path] junk) as Hrun. cbv zeta in Hrun.
  unfold finds_device, open_events, wants_usage in Hrun.
  cbn [length nth] in Hrun. rewrite Hpath in Hrun.
  change (1 <? Z.of_nat 2) with true in Hrun.
  change (Z.of_nat 2 =? 2) with true in Hrun. cbn [negb orb andb] in Hrun.
  destruct (probe_events_view path true) as (Ho & _).
  destruct (is_eligible H path).
  - split; [|discriminate].
    destruct Hrun as (evs & Htr & Hcase). rewrite Htr, opens_app, Ho.
    destruct Hcase as [(_ & _ & evs' & -> & Hv)|(_ & n & cmd & Hv & Hn & Hl)].
    + rewrite opens_app, opens_view, Hv. reflexivity.
    + rewrite opens_view, Hv.
      destruct (session_view_take n) as (_ & _ & Hop). rewrite Hop. reflexivity.
  - destruct Hrun as [Hr Htr]. rewrite Htr. auto.
Qed.

(** X12. Without an argument, when no node is eligible and one of the
    sixteen nodes cannot be opened for lack of permission ([EACCES]), the
    hint about permissions is printed. *)
Theorem permission_hint (argv : list string) (junk : var -> list byte)
    (i : nat)
    (Hauto : (length argv <= 1)%nat)
    (Hnone : forall j, (j < 16)%nat -> is_eligible H (hidraw_path j) = false)
    (Hi : (i < 16)%nat)
    (Hperm : nodes H (hidraw_path i) = OpenFails EACCES) :
  In (EvStderr ErrNoPermission) (trace (snd (run H argv junk)))
  /\ fst (run H argv junk) = Ret 1.
Proof.
  destruct (scan_none (seq 0 16)) as [Ho Hf].
  { intros j Hj. apply in_seq in Hj. apply Hnone. lia. }
  assert (Hhad : scan_had H (seq 0 16) false 0 = true).
  { apply scan_had_true.
    - intros j Hj. apply in_seq in Hj. apply Hnone. lia.
    - right. exists i. split; [apply in_seq; lia|exact Hperm]. }
  pose proof (run_shown H argv junk) as Hrun. cbv zeta in Hrun.
  unfold finds_device, open_events in Hrun.
  rewrite (auto_mode argv Hauto), Hf, Hhad in Hrun.
  destruct Hrun as [Hr Htr]. rewrite Htr. split; [|exact Hr].
  apply in_or_app. right. right. left. reflexivity.
Qed.

End RunFacts.

Section SessionFacts.
Context {S : Type} (H : host S).

Lemma last_command (v : list obs) (c : command) :
  last v = Some (ObsCmd c) -> last (commands_of v) = Some c.
Proof.
  intros Hl. apply last_Some in Hl. destruct Hl as [v' ->].
  unfold commands_of. rewrite omap_app. simpl. apply last_snoc.
Qed.

(** In every beginning of [session_view] there are at least as many
    commands as lines: a line is printed only after its command. *)
Lemma session_view_lines_le (n : nat) :
  (length (lines_of (take n session_view))
   <= length (commands_of (take n session_view)))%nat.
Proof.
  destruct (Nat.le_gt_cases n (length session_view)) as [Hn|Hn].
  - assert (Hall : forallb
                     (fun k =>
                        (length (lines_of (take k session_view))
                         <=? length (commands_of (take k session_view)))%nat)
                     (seq 0 43) = true) by (vm_compute; reflexivity).
    rewrite forallb_forall in Hall.
    apply Nat.leb_le, Hall, in_seq. simpl in Hn. lia.
  - rewrite take_ge by lia. vm_compute. lia.
Qed.

(** What a run has sent and printed, from [run_shown]. *)
Lemma run_outline (argv : list string) (junk : var -> list byte) :
  let out := run H argv junk in
  exists v,
    commands (trace (snd out)) = commands_of v
    /\ lines (trace (snd out)) = lines_of v
    /\ ((fst out = Ret 1 /\ v = [])
        \/ (fst out = Ret 0 /\ v = session_view
            /\ fd_state (snd out) = None
            /\ last (trace (snd out)) = Some EvClose)
        \/ (fst out = Exit 1
            /\ exists n cmd,
                 v = take n session_view
                 /\ last v = Some (ObsCmd cmd)
                 /\ last (view (trace (snd out))) = Some (ObsCmd cmd))).
Proof.
  intros out. pose proof (run_shown H argv junk) as Hrun. fold out in Hrun.
  destruct (open_events_quiet H argv) as [Hc Hl].
  destruct (finds_device H argv).
  - destruct Hrun as (evs & Htr & Hcase).
    destruct Hcase as [(Hr & Hfd & evs' & -> & Hv)|(Hr & n & cmd & Hv & Hn & Hlast)].
    + exists session_view. rewrite Htr, !commands_app, !lines_app, Hc, Hl.
      rewrite commands_view, lines_view, Hv.
      split; [apply app_nil_r|]. split; [apply app_nil_r|].
      right. left. repeat split; auto.
      rewrite app_assoc. apply last_snoc.
    + exists (take n session_view).
      rewrite Htr, !commands_app, !lines_app, Hc, Hl.
      rewrite commands_view, lines_view, Hv.
      split; [reflexivity|]. split; [reflexivity|].
      right. right. split; [exact Hr|]. exists n, cmd.
      split; [reflexivity|]. split; [exact Hlast|].
      rewrite view_app, Hv, last_app, Hlast. reflexivity.
  - destruct Hrun as [Hr Htr]. exists []. rewrite Htr, Hc, Hl.
    split; [reflexivity|]. split; [reflexivity|]. left. auto.
Qed.

(** X13. Every run ends in one of three ways: [main] returns 0, [main]
    returns 1, or the process exits with status 1. The commands it has sent
    are always a beginning of the 23 commands of the session, in order:
    all of them when 0 is returned (the descriptor is then closed, as the
    last event), none when 1 is returned, and at least one when the process
    exits. In that case the command that failed is the last thing the run
    shows: nothing is sent, printed or closed after it. *)
Theorem session_is_a_fixed_sequence (argv : list string)
    (junk : var -> list byte) :
  let out := run H argv junk in
  let cmds := commands (trace (snd out)) in
  (fst out = Ret 0 \/ fst out = Ret 1 \/ fst out = Exit 1)
  /\ cmds = take (length cmds) session_commands
  /\ (fst out = Ret 0 ->
      cmds = session_commands /\ fd_state (snd out) = None
      /\ last (trace (snd out)) = Some EvClose)
  /\ (fst out = Ret 1 -> cmds = [])
  /\ (fst out = Exit 1 ->
      exists cmd, last cmds = Some cmd
                  /\ last (view (trace (snd out))) = Some (ObsCmd cmd)).
Proof.
  intros out cmds. unfold cmds.
  destruct (run_outline argv junk) as (v & Hc & _ & Hcase). fold out in Hc, Hcase.
  rewrite Hc.
  destruct Hcase as [(Hr & ->)|[(Hr & -> & Hfd & Hl)|(Hr & n & cmd & -> & Hl & Hlv)]];
    rewrite Hr.
  - split; [auto|]. split; [reflexivity|].
    split; [discriminate|]. split; [reflexivity|]. discriminate.
  - split; [auto|]. split; [reflexivity|].
    split; [auto|]. split; [discriminate|]. discriminate.
  - split; [auto|]. split; [apply session_view_take|].
    split; [discriminate|]. split; [discriminate|].
    intros _. exists cmd. split; [apply last_command, Hl|exact Hlv].
Qed.

(** X14. The lines of telemetry a run prints are always a beginning of the
    19 lines of a session, in order, and never outnumber the commands sent:
    a run that stops keeps what it has printed and prints nothing more. A
    run that returns 0 has printed all 19. *)
Theorem lines_follow_the_session (argv : list string)
    (junk : var -> list byte) :
  let out := run H argv junk in
  let ls := lines (trace (snd out)) in
  ls = take (length ls) (lines_of session_view)
  /\ (length ls <= length (commands (trace (snd out))))%nat
  /\ (fst out = Ret 0 -> ls = lines_of session_view /\ length ls = 19%nat)
  /\ (fst out = Ret 1 -> ls = []).
Proof.
  intros out ls. unfold ls.
  destruct (run_outline argv junk) as (v & Hc & Hl & Hcase).
  fold out in Hc, Hl, Hcase. rewrite Hl, Hc.
  destruct Hcase as [(Hr & ->)|[(Hr & -> & _)|(Hr & n & cmd & -> & _)]];
    rewrite Hr.
  - split; [reflexivity|]. split; [simpl; lia|].
    split; [discriminate|]. reflexivity.
  - split; [reflexivity|]. split; [vm_compute; lia|].
    split; [auto|]. discriminate.
  - split; [apply session_view_take|]. split; [apply session_view_lines_le|].
    split; discriminate.
Qed.

(** X15. No rail is restored on failure: when the process exits after 15
    to 22 commands, the last rail-select it has sent is the one of rail 1 or
    of rail 2, and the select of rail 0 that ends a session has not been
    sent. *)
Theorem failure_leaves_rail_selected (argv : list string)
    (junk : var -> list byte) (c : Z)
    (Hexit : fst (run H argv junk) = Exit c)
    (Hlen : (15 <= length (commands (trace (snd (run H argv junk)))) <= 22)%nat) :
  last (List.filter is_select (commands (trace (snd (run H argv junk)))))
  = Some (x02, x00, x01)
  \/ last (List.filter is_select (commands (trace (snd (run H argv junk)))))
     = Some (x02, x00, x02).
Proof.
  destruct (run_outline argv junk) as (v & Hc & _ & Hcase).
  cbv zeta in Hc, Hcase.
  assert (Hpre : commands (trace (snd (run H argv junk)))
                 = take (length (commands (trace (snd (run H argv junk)))))
                     session_commands).
  { rewrite Hc.
    destruct Hcase as [(Hr & ->)|[(Hr & -> & _)|(Hr & n & cmd & -> & _)]];
      try reflexivity.
    apply session_view_take. }
  set (m := length (commands (trace (snd (run H argv junk))))) in *.
  rewrite Hpre.
  assert (Hm : (m = 15 \/ m = 16 \/ m = 17 \/ m = 18 \/ m = 19 \/ m = 20
                \/ m = 21 \/ m = 22)%nat) by lia.
  repeat (destruct Hm as [->|Hm];
          [first [left; reflexivity | right; reflexivity]|]).
  rewrite Hm. right. reflexivity.
Qed.

End SessionFacts.

Section RunWitnesses.
Import Sim.

Lemma usage_opens_nothing_witness :
  trace (snd (run (machine LittleEndian psu) ["corsairmi"; "-h"]%string no_junk))
  = [EvStderr (ErrUsage "corsairmi")].
Proof.
  apply (usage_opens_nothing (machine LittleEndian psu)
           ["corsairmi"; "-h"]%string no_junk).
  - simpl. lia.
  - left. reflexivity.
Defined.

Lemma first_eligible_node_is_used_witness :
  opens (trace (snd (run (crowded true) ["corsairmi"%string] no_junk)))
  = ["/dev/hidraw0"; "/dev/hidraw1"; "/dev/hidraw2"]%string.
Proof.
  apply (first_eligible_node_is_used (crowded true) ["corsairmi"%string]
           no_junk 2).
  - simpl. lia.
  - lia.
  - reflexivity.
  - intros j Hj. destruct j as [|[|j]]; [reflexivity|reflexivity|lia].
Defined.

Lemma crowded_none (j : nat) :
  (j < 16)%nat -> is_eligible (crowded false) (hidraw_path j) = false.
Proof.
  intros Hj. do 16 (destruct j as [|j]; [reflexivity|]). lia.
Defined.

Lemma no_eligible_node_witness :
  fst (run (crowded false) ["corsairmi"%string] no_junk) = Ret 1
  /\ commands (trace (snd (run (crowded false) ["corsairmi"%string] no_junk)))
     = [].
Proof.
  destruct (no_eligible_node (crowded false) ["corsairmi"%string] no_junk)
    as (Hr & _ & Hc & _).
  - simpl. lia.
  - exact crowded_none.
  - auto.
Defined.

Lemma path_argument_only_witness :
  opens (trace (snd (run (crowded true) ["corsairmi"; "/dev/hidraw1"]%string
                       no_junk)))
  = ["/dev/hidraw1"%string]
  /\ fst (run (crowded true) ["corsairmi"; "/dev/hidraw1"]%string no_junk)
     = Ret 1.
Proof.
  destruct (path_argument_only (crowded true) "corsairmi" "/dev/hidraw1"
              no_junk eq_refl) as (Ho & Hrej).
  split; [exact Ho|]. apply Hrej. reflexivity.
Defined.

Lemma permission_hint_witness :
  In (EvStderr ErrNoPermission)
    (trace (snd (run (crowded false) ["corsairmi"%string] no_junk))).
Proof.
  apply (permission_hint (crowded false) ["corsairmi"%string] no_junk 0).
  - simpl. lia.
  - exact crowded_none.
  - lia.
  - reflexivity.
Defined.

Lemma failure_leaves_rail_selected_witness :
  last (List.filter is_select
          (commands (trace (snd (run (machine LittleEndian flaky)
                                   ["corsairmi"%string] no_junk)))))
  = Some (x02, x00, x01).
Proof.
  destruct (failure_leaves_rail_selected (machine LittleEndian flaky)
              ["corsairmi"%string] no_junk 1 eq_refl) as [Hone|Htwo].
  - vm_compute. lia.
  - exact Hone.
  - vm_compute in Htwo. discriminate.
Defined.

End RunWitnesses.

(** ** The layout of a dump *)

Section DumpFacts.

Lemma hex_cell_back (b : byte) :
  hex_value (hex_digit (Byte.to_N b / 16)) = Some (Byte.to_N b / 16)%N
  /\ hex_value (hex_digit (Byte.to_N b mod 16)) = Some (Byte.to_N b mod 16)%N
  /\ Byte.of_N (16 * (Byte.to_N b / 16) + Byte.to_N b mod 16) = Some b.
Proof. destruct b; repeat split. Qed.

Lemma dump_hex_length (buf : list byte) (size i : nat) :
  length (dump_hex buf size i) = 48%nat.
Proof.
  unfold dump_hex.
  assert (Hgen : forall js,
             length (flat_map (fun j => if (i + j <? size)%nat
                                        then hex_cell (nth (i + j) buf x00)
                                        else [x20; x20; x20]) js)
             = (3 * length js)%nat).
  { induction js as [|j js IH]; [reflexivity|].
    cbn [flat_map]. rewrite length_app, IH.
    destruct (i + j <? size)%nat; simpl; lia. }
  rewrite Hgen. reflexivity.
Qed.

Lemma dump_ascii_length (buf : list byte) (size i : nat) :
  forall n a,
    length (dump_ascii buf size i (seq a n)) = Nat.min n (size - (i + a)).
Proof.
  induction n as [|n IH]; intros a; [reflexivity|].
  cbn [seq dump_ascii].
  destruct (Nat.ltb_spec (i + a) size) as [Hlt|Hge].
  - cbn [length]. rewrite IH. lia.
  - cbn [length]. lia.
Qed.

Lemma dump_line_length (buf : list byte) (size i : nat) :
  length (dump_line buf size i) = (50 + Nat.min 16 (size - i))%nat.
Proof.
  unfold dump_line. rewrite !length_app, dump_hex_length, dump_ascii_length.
  simpl length. replace (i + 0)%nat with i by lia. lia.
Qed.

(** The line at index [k], when there is one. *)
Lemma dump_from_lookup (buf : list byte) (size : nat) :
  forall fuel i k,
    (size - i <= fuel)%nat ->
    dump_from fuel buf size i !! k
    = if (i + 16 * k <? size)%nat
      then Some (dump_line buf size (i + 16 * k)) else None.
Proof.
  induction fuel as [|fuel IH]; intros i k Hf.
  - cbn [dump_from].
    destruct (Nat.ltb_spec (i + 16 * k) size); [lia|apply lookup_nil].
  - cbn [dump_from]. destruct (Nat.ltb_spec i size) as [Hlt|Hge].
    + destruct k as [|k].
      * replace (i + 16 * 0)%nat with i by lia.
        destruct (Nat.ltb_spec i size); [reflexivity|lia].
      * cbn [lookup list_lookup]. rewrite IH by lia.
        replace (i + 16 + 16 * k)%nat with (i + 16 * Datatypes.S k)%nat by lia.
        reflexivity.
    + destruct (Nat.ltb_spec (i + 16 * k) size); [lia|]. apply lookup_nil.
Qed.

Lemma dump_from_length (buf : list byte) (size : nat) :
  forall fuel i,
    (size - i <= fuel)%nat ->
    (size - i <= 16 * length (dump_from fuel buf size i) < size - i + 16)%nat.
Proof.
  induction fuel as [|fuel IH]; intros i Hf.
  - simpl. lia.
  - cbn [dump_from]. destruct (Nat.ltb_spec i size) as [Hlt|Hge].
    + cbn [length]. specialize (IH (i + 16)%nat ltac:(lia)). lia.
    + simpl. lia.
Qed.

(** X16. A dump of [size] bytes has one line for every 16 bytes begun
    (none for an empty dump). Line [k] is 48 characters of hex cells, two
    spaces and one character for each of its bytes: 66 characters when it
    is full, and never a line without a byte. *)
Theorem dump_layout (buf : list byte) (size : nat) :
  (size <= 16 * length (dump_text buf size) < size + 16)%nat
  /\ (size = 0%nat -> dump_text buf size = [])
  /\ (forall k line,
        dump_text buf size !! k = Some line ->
        (16 * k < size)%nat
        /\ line = dump_line buf size (16 * k)
        /\ length line = (50 + Nat.min 16 (size - 16 * k))%nat
        /\ take 48 line = dump_hex buf size (16 * k)
        /\ (16 * k + 16 <= size -> length line = 66)%nat).
Proof.
  unfold dump_text. split; [|split].
  - pose proof (dump_from_length buf size size 0 ltac:(lia)). lia.
  - intros ->. reflexivity.
  - intros k line Hk. rewrite dump_from_lookup in Hk by lia.
    change (0 + 16 * k)%nat with (16 * k)%nat in Hk.
    destruct (Nat.ltb_spec (16 * k) size) as [Hlt|Hge]; [|discriminate].
    assert (Hline : line = dump_line buf size (16 * k)) by congruence.
    rewrite Hline. split; [exact Hlt|]. split; [reflexivity|].
    rewrite dump_line_length. split; [reflexivity|]. split.
    + unfold dump_line.
      pose proof (dump_hex_length buf size (16 * k)) as Hh.
      rewrite <- Hh. apply take_app_length.
    + intros Hfull. lia.
Qed.

Lemma unhex_hex (buf : list byte) (size i : nat) (tail : list byte) :
  (size <= length buf)%nat ->
  forall n a,
    unhex_cells n
      (flat_map (fun j => if (i + j <? size)%nat
                          then hex_cell (nth (i + j) buf x00)
                          else [x20; x20; x20]) (seq a n) ++ tail)
    = take n (drop (i + a) (take size buf)).
Proof.
  intros Hsize. induction n as [|n IH]; intros a; [reflexivity|].
  cbn [seq flat_map].
  destruct (Nat.ltb_spec (i + a) size) as [Hlt|Hge].
  - unfold hex_cell. cbn [app unhex_cells].
    destruct (hex_cell_back (nth (i + a) buf x00)) as (Hh & Hl & Hb).
    rewrite Hh, Hl, Hb, IH.
    assert (Hnth : take size buf !! (i + a)%nat = Some (nth (i + a) buf x00)).
    { rewrite lookup_take_lt by lia. rewrite nth_lookup.
      destruct (buf !! (i + a)%nat) eqn:E; [reflexivity|].
      apply lookup_ge_None in E. lia. }
    rewrite (drop_S _ _ _ Hnth). cbn [take].
    replace (i + Datatypes.S a)%nat with (Datatypes.S (i + a)) by lia.
    reflexivity.
  - cbn [app unhex_cells]. change (hex_value x20) with (@None N). cbv iota.
    rewrite drop_ge; [reflexivity|]. rewrite length_take. lia.
Qed.

Lemma unhex_line (buf : list byte) (size i : nat) :
  (size <= length buf)%nat ->
  unhex_cells 16 (dump_line buf size i) = take 16 (drop i (take size buf)).
Proof.
  intros Hsize. unfold dump_line, dump_hex.
  rewrite (unhex_hex buf size i _ Hsize 16 0).
  replace (i + 0)%nat with i by lia. reflexivity.
Qed.

Lemma undump_from (buf : list byte) (size : nat) :
  (size <= length buf)%nat ->
  forall fuel i,
    (size - i <= fuel)%nat ->
    undump (dump_from fuel buf size i) = drop i (take size buf).
Proof.
  intros Hsize. induction fuel as [|fuel IH]; intros i Hf.
  - simpl. rewrite drop_ge; [reflexivity|]. rewrite length_take. lia.
  - cbn [dump_from]. destruct (Nat.ltb_spec i size) as [Hlt|Hge].
    + unfold undump in *. cbn [flat_map].
      rewrite (unhex_line buf size i Hsize), IH by lia.
      rewrite <- (drop_drop (take size buf) 16 i). apply take_drop.
    + unfold undump. simpl. rewrite drop_ge; [reflexivity|].
      rewrite length_take. lia.
Qed.

(** X17. The hex column of a dump holds the bytes that were dumped:
    reading the cells back, line by line, gives the first [size] bytes of
    the buffer, so two dumps with the same text are dumps of the same
    bytes. *)
Theorem dump_can_be_read_back (buf : list byte) (size : nat)
    (Hsize : (size <= length buf)%nat) :
  undump (dump_text buf size) = take size buf
  /\ (forall buf' : list byte,
        (size <= length buf')%nat ->
        dump_text buf' size = dump_text buf size ->
        take size buf' = take size buf).
Proof.
  assert (Hback : forall b : list byte,
             (size <= length b)%nat -> undump (dump_text b size) = take size b).
  { intros b Hb. unfold dump_text.
    rewrite (undump_from b size Hb size 0) by lia. apply drop_0. }
  split; [apply Hback, Hsize|].
  intros buf' Hsize' Heq.
  rewrite <- (Hback buf' Hsize'), <- (Hback buf Hsize), Heq. reflexivity.
Qed.

Lemma dump_can_be_read_back_witness :
  undump (dump_text (list_byte_of_string "TestPSU") 7)
  = list_byte_of_string "TestPSU".
Proof.
  destruct (dump_can_be_read_back (list_byte_of_string "TestPSU") 7) as [Hb _].
  - simpl. lia.
  - exact Hb.
Defined.





End DumpFacts.

(** ** What a reading line holds *)

Section Readings.
Context {S : Type} (H : host S).

Lemma le_value_bounds (bytes : list byte) :
  0 <= le_value bytes < 256 ^ Z.of_nat (length bytes).
Proof.
  induction bytes as [|b rest IH].
  - simpl. lia.
  - cbn [le_value length]. rewrite Nat2Z.inj_succ, Z.pow_succ_r by lia.
    pose proof (Byte.to_N_bounded b). lia.
Qed.

Lemma sys_write_trace (buf : list byte) (ret : Z) (p p1 : proc S) :
  sys_write H buf p = (Ret ret, p1) -> trace p1 = trace p ++ [EvWrite buf ret].
Proof.
  unfold sys_write. destruct (fd_state p).
  - destruct (hid_write _ _ _) as [r s']. intros E. inversion E. reflexivity.
  - intros E. inversion E. reflexivity.
Qed.

Lemma sys_read_trace (ret : Z) (buf_r : list byte) (p1 p2 : proc S) :
  sys_read H 64 p1 = (Ret (ret, buf_r), p2) ->
  trace p2 = trace p1 ++ [EvRead 64 ret].
Proof.
  unfold sys_read. destruct (fd_state p1).
  - destruct (hid_read _ _) as [reply s']. intros E. inversion E as [[E1 E2]].
    cbn [trace]. rewrite E1. reflexivity.
  - intros E. inversion E. reflexivity.
Qed.

(** A register read that goes through, in one equation. *)
Lemma read_reg_returns (reg : byte) (dst : var) (n : Z)
    (p p1 p2 : proc S) (buf_r : list byte)
    (Hw : sys_write H (buf_w x03 reg x00) p = (Ret 65, p1))
    (Hr : sys_read H 64 p1 = (Ret (64, buf_r), p2))
    (H0 : nth 0 buf_r x00 = x03) (H1 : nth 1 buf_r x00 = reg)
    (Hn : 0 < n <= 62)
    (Hroom : length (mem p dst) = Z.to_nat n) :
  send_recv_cmd H x03 reg x00 (Some dst) n p
  = (Ret tt,
     {| fd_state := fd_state p2; errno := errno p2;
        mem := fun y => if var_eqb dst y
                        then take (Z.to_nat n) (drop 2 buf_r)
                        else mem p y;
        trace := trace p ++ [EvWrite (buf_w x03 reg x00) 65; EvRead 64 64] |}).
Proof.
  assert (Hm : mem p2 = mem p).
  { pose proof (sys_read_mem H 64 p1) as E1. rewrite Hr in E1.
    pose proof (sys_write_mem H (buf_w x03 reg x00) p) as E0. rewrite Hw in E0.
    simpl in *. congruence. }
  pose proof (sys_read_full H _ _ _ Hr) as Hlen.
  pose proof (sys_write_trace _ _ _ _ Hw) as Ht1.
  pose proof (sys_read_trace _ _ _ _ Hr) as Ht2.
  unfold send_recv_cmd, mbind, M_bind. rewrite Hw. simpl. rewrite Hr. simpl.
  rewrite H0, H1, !byte_eqb_refl. simpl.
  replace (0 <? n) with true by (symmetry; apply Z.ltb_lt; lia).
  change (64 - 2) with 62.
  replace (62 <? n) with false by (symmetry; apply Z.ltb_ge; lia).
  unfold memcpy, mbind, M_bind, load, store, fault. simpl.
  replace (Z.to_nat n <=? length (mem p2 dst))%nat with true
    by (symmetry; apply Nat.leb_le; rewrite Hm; lia).
  replace (Z.to_nat n <=? length (drop 2 buf_r))%nat with true
    by (symmetry; apply Nat.leb_le; rewrite length_drop; lia).
  simpl. rewrite Hm, Ht2, Ht1, <- app_assoc.
  rewrite (drop_ge (mem p dst)) by lia. rewrite app_nil_r. reflexivity.
Qed.

(** X19. A reading line shows the two payload bytes decoded: when the read
    of register [reg] goes through, [print_std_reg] makes that one exchange
    and prints one line, whose value is [mkv] of the 16-bit word the host
    makes of bytes 2 and 3 of the response (low byte first on a
    little-endian host). *)
Theorem print_std_reg_shows_payload (reg : byte) (fmt : string)
    (arg : option Z) (p p1 p2 : proc S) (buf_r : list byte)
    (Hw : sys_write H (buf_w x03 reg x00) p = (Ret 65, p1))
    (Hr : sys_read H 64 p1 = (Ret (64, buf_r), p2))
    (H0 : nth 0 buf_r x00 = x03) (H1 : nth 1 buf_r x00 = reg)
    (Hval : length (mem p Val) = 2%nat) :
  let lo := Z.of_N (Byte.to_N (nth 2 buf_r x00)) in
  let hi := Z.of_N (Byte.to_N (nth 3 buf_r x00)) in
  let w := match byte_order H with
           | LittleEndian => lo + 256 * hi
           | BigEndian => 256 * lo + hi
           end in
  0 <= w < 65536
  /\ fst (print_std_reg H reg fmt arg p) = Ret tt
  /\ trace (snd (print_std_reg H reg fmt arg p))
     = trace p ++ [EvWrite (buf_w x03 reg x00) 65; EvRead 64 64;
                   EvStdout (OutReading fmt arg (Codec.mkv w))]
  /\ mem (snd (print_std_reg H reg fmt arg p)) Val
     = [nth 2 buf_r x00; nth 3 buf_r x00].
Proof.
  intros lo hi w.
  pose proof (sys_read_full H _ _ _ Hr) as Hlen.
  assert (Hb : take 2 (drop 2 buf_r) = [nth 2 buf_r x00; nth 3 buf_r x00]).
  { do 4 (destruct buf_r as [|? buf_r]; [simpl in Hlen; lia|]). reflexivity. }
  assert (Hwv : object_value H [nth 2 buf_r x00; nth 3 buf_r x00] = w).
  { unfold object_value, w, lo, hi. destruct (byte_order H); simpl; lia. }
  split.
  { pose proof (Byte.to_N_bounded (nth 2 buf_r x00)).
    pose proof (Byte.to_N_bounded (nth 3 buf_r x00)).
    unfold w, lo, hi. destruct (byte_order H); lia. }
  unfold print_std_reg, read_reg16, mbind, M_bind.
  rewrite (read_reg_returns reg Val 2 p p1 p2 buf_r Hw Hr H0 H1)
    by (rewrite ?Hval; lia).
  unfold load, stdout, log. cbn [fst snd mem trace var_eqb].
  change (Z.to_nat 2) with 2%nat. rewrite Hb, Hwv, <- app_assoc.
  repeat split.
Qed.

(** X20. The two time lines show the 32-bit counter of the response and
    its split into whole days and hours of the day: the counter is the word
    the host makes of bytes 2 to 5, the days are at most 49710, the hours
    are below 24, and days and hours together are the counter rounded down
    to a whole hour. *)
Theorem seconds_line_splits_counter (reg : byte) (label : string)
    (p p1 p2 : proc S) (buf_r : list byte)
    (Hw : sys_write H (buf_w x03 reg x00) p = (Ret 65, p1))
    (Hr : sys_read H 64 p1 = (Ret (64, buf_r), p2))
    (H0 : nth 0 buf_r x00 = x03) (H1 : nth 1 buf_r x00 = reg)
    (Hv32 : length (mem p V32) = 4%nat) :
  let b i := Z.of_N (Byte.to_N (nth (2 + i) buf_r x00)) in
  let v := match byte_order H with
           | LittleEndian => b 0%nat + 256 * b 1%nat + 65536 * b 2%nat
                             + 16777216 * b 3%nat
           | BigEndian => 16777216 * b 0%nat + 65536 * b 1%nat + 256 * b 2%nat
                          + b 3%nat
           end in
  let out := (read_reg32 H reg V32;; print_seconds H label V32) p in
  exists days hours,
    fst out = Ret tt
    /\ trace (snd out)
       = trace p ++ [EvWrite (buf_w x03 reg x00) 65; EvRead 64 64;
                     EvStdout (OutSeconds label v days hours)]
    /\ 0 <= v < 2 ^ 32
    /\ 0 <= days <= 49710
    /\ 0 <= hours < 24
    /\ days * 86400 + hours * 3600 <= v < days * 86400 + (hours + 1) * 3600.
Proof.
  intros b v out.
  pose proof (sys_read_full H _ _ _ Hr) as Hlen.
  assert (Hb : take 4 (drop 2 buf_r)
               = [nth 2 buf_r x00; nth 3 buf_r x00; nth 4 buf_r x00;
                  nth 5 buf_r x00]).
  { do 6 (destruct buf_r as [|? buf_r]; [simpl in Hlen; lia|]). reflexivity. }
  assert (Hwv : object_value H [nth 2 buf_r x00; nth 3 buf_r x00;
                                nth 4 buf_r x00; nth 5 buf_r x00] = v).
  { unfold object_value, v, b. destruct (byte_order H); simpl; lia. }
  assert (Hrange : 0 <= v < 2 ^ 32).
  { pose proof (Byte.to_N_bounded (nth 2 buf_r x00)).
    pose proof (Byte.to_N_bounded (nth 3 buf_r x00)).
    pose proof (Byte.to_N_bounded (nth 4 buf_r x00)).
    pose proof (Byte.to_N_bounded (nth 5 buf_r x00)).
    unfold v, b. cbn [Nat.add]. destruct (byte_order H); lia. }
  exists (v / (24 * 60 * 60)), (v / (60 * 60) mod 24).
  unfold out, read_reg32, print_seconds, mbind, M_bind.
  rewrite (read_reg_returns reg V32 4 p p1 p2 buf_r Hw Hr H0 H1)
    by (rewrite ?Hv32; lia).
  unfold load, stdout, log. cbn [fst snd mem trace var_eqb].
  change (Z.to_nat 4) with 4%nat. rewrite Hb, Hwv, <- app_assoc.
  split; [reflexivity|]. split; [reflexivity|]. split; [exact Hrange|].
  change (24 * 60 * 60) with 86400. change (60 * 60) with 3600.
  change (2 ^ 32) with 4294967296 in Hrange.
  clearbody v. clear - Hrange.
  repeat split; Z.div_mod_to_equations; lia.
Qed.

End Readings.

Section ReadingWitnesses.
Import Sim.

Lemma print_std_reg_shows_payload_witness :
  0 <= 0x1199 < 65536
  /\ fst (print_std_reg (machine LittleEndian psu) x8d "temp1" None opened)
     = Ret tt
  /\ trace (snd (print_std_reg (machine LittleEndian psu) x8d "temp1" None
                   opened))
     = [EvWrite (buf_w x03 x8d x00) 65; EvRead 64 64;
        EvStdout (OutReading "temp1" None (Codec.mkv 0x1199))]
  /\ mem (snd (print_std_reg (machine LittleEndian psu) x8d "temp1" None
                 opened)) Val
     = [x99; x11].
Proof.
  exact (print_std_reg_shows_payload (machine LittleEndian psu) x8d "temp1"
           None opened _ _ (x03 :: x8d :: payload x03 x8d)
           eq_refl eq_refl eq_refl eq_refl eq_refl).
Defined.

Lemma seconds_line_splits_counter_witness :
  exists days hours,
    fst ((read_reg32 (machine LittleEndian psu) xd1 V32;;
          print_seconds (machine LittleEndian psu) "powered:" V32) opened)
    = Ret tt
    /\ trace (snd ((read_reg32 (machine LittleEndian psu) xd1 V32;;
                    print_seconds (machine LittleEndian psu) "powered:" V32)
                     opened))
       = [EvWrite (buf_w x03 xd1 x00) 65; EvRead 64 64;
          EvStdout (OutSeconds "powered:" 0 days hours)]
    /\ 0 <= 0 < 2 ^ 32
    /\ 0 <= days <= 49710
    /\ 0 <= hours < 24
    /\ days * 86400 + hours * 3600 <= 0 < days * 86400 + (hours + 1) * 3600.
Proof.
  exact (seconds_line_splits_counter (machine LittleEndian psu) xd1 "powered:"
           opened _ _ (x03 :: xd1 :: payload x03 xd1)
           eq_refl eq_refl eq_refl eq_refl eq_refl).
Defined.

End ReadingWitnesses.

(** ** The column of the values *)

(** X21. A reading line puts its label, a colon and a space first and pads
    them with spaces to 16 characters, so the value starts in column 17; a
    label of more than 14 characters is not cut and moves the value to the
    right. Every label of the session is short enough. *)
Theorem reading_prefix_width (fmt : string) (arg : option Z) :
  let label := vprintf_u (list_byte_of_string fmt) arg in
  length (reading_prefix fmt arg) = Nat.max 16 (length label + 2)
  /\ take (length label + 2) (reading_prefix fmt arg) = label ++ [x3a; x20]
  /\ Forall (eq x20) (drop (length label + 2) (reading_prefix fmt arg))
  /\ (In (LReading fmt arg) (lines_of session_view) ->
      length (reading_prefix fmt arg) = 16%nat).
Proof.
  intros label. unfold reading_prefix. fold label.
  assert (E : label ++ [x3a; x20] ++ replicate (16 - (length label + 2)) x20
              = (label ++ [x3a; x20])
                ++ replicate (16 - (length label + 2)) x20).
  { rewrite <- app_assoc. reflexivity. }
  assert (L : length (label ++ [x3a; x20]) = (length label + 2)%nat).
  { rewrite length_app. reflexivity. }
  repeat split.
  - rewrite E, length_app, L, length_replicate. lia.
  - rewrite E, take_app_length'; [reflexivity | symmetry; exact L].
  - rewrite E, drop_app_length'; [|symmetry; exact L].
    apply Forall_forall. intros c Hc.
    apply elem_of_replicate in Hc. symmetry. apply Hc.
  - intros Hin. rewrite E, length_app, L, length_replicate.
    cbv [lines_of session_view omap list_omap] in Hin. cbn in Hin.
    unfold label.
    repeat (destruct Hin as [Hin|Hin];
            [first [discriminate Hin | (inversion Hin; reflexivity)]|]).
    destruct Hin.
Qed.
